(** * Redis Enterprise health check-up: a shallow embedding of [main.py]

    The script polls three endpoints (license, database inventory, metrics
    text), extracts three metric families from the metrics text with a
    regular expression, joins them with the inventory and prints one JSON
    report.  This file embeds the functions of [main.py] as Rocq functions
    and proves, or refutes, the properties stated for them.

    Conventions of the embedding:
    - a Python [str] is a list of Unicode code points, each an [N];
    - a Python [float] is a binary64 number, a [spec_float] of the Standard
      Library with [prec = 53] and [emax = 1024];
    - a Python [int] is a [Z];
    - a raised exception is the [Raise] case of [result];
    - a [dict] is an association list in insertion order;
    - in comments ['] stands for the double quote of Python source and of
      the metrics text. *)

From Stdlib Require Import List NArith ZArith Ascii String Bool Lia.
From Stdlib Require Import DecimalString.
From Stdlib Require Import Floats.SpecFloat.
Import ListNotations.

Set Implicit Arguments.
Local Open Scope Z_scope.

(** ** Python runtime fragment *)

Module Py.

(** Exceptions that the modelled code can raise.  [RequestException] stands
    for the exceptions of [requests.get] itself (no connection, time-out,
    and the like), [HTTPError] is raised by [raise_for_status] and
    [JSONDecodeError] by [response.json]. *)
Inductive exn : Set :=
| ValueError
| TypeError
| KeyError
| AttributeError
| ZeroDivisionError
| OverflowError
| RequestException
| HTTPError
| JSONDecodeError.

Inductive result (A : Type) : Type :=
| Ok (a : A)
| Raise (e : exn).

Arguments Ok {A} a.
Arguments Raise {A} e.

Definition bind {A B : Type} (m : result A) (f : A -> result B) : result B :=
  match m with
  | Ok a => f a
  | Raise e => Raise e
  end.

Definition char : Set := N.

Definition str : Set := list char.

(** The [str] of an ASCII literal. *)
Definition lit (s : string) : str := map N_of_ascii (list_ascii_of_string s).

(** The double quote and the line feed, which string notation cannot hold. *)
Definition dq : char := 34%N.
Definition nl : char := 10%N.

(** [quoted s] is [s] between double quotes. *)
Definition quoted (s : str) : str := dq :: s ++ [dq].

Definition str_eqb (a b : str) : bool :=
  if list_eq_dec N.eq_dec a b then true else false.

(** *** binary64 *)

Definition prec : Z := 53.
Definition emax : Z := 1024.

Definition float : Set := spec_float.

(** The double nearest to the integer [z] (ties to even), or an infinity. *)
Definition Z2SF (z : Z) : float := binary_normalize prec emax z 0 false.

(** The double nearest to [n / d] for positive [n] and [d], with sign [s]:
    the correctly rounded quotient that [strtod] and the integer true
    division compute. *)
Definition ratio2SF (s : bool) (n d : positive) : float :=
  let '(mz, ez, lz) := SFdiv_core_binary prec emax (Zpos n) 0 (Zpos d) 0 in
  binary_round_aux prec emax s mz ez lz.

Definition is_finite (x : float) : bool :=
  match x with
  | S754_zero _ | S754_finite _ _ _ => true
  | _ => false
  end.

Definition is_zero (x : float) : bool :=
  match x with
  | S754_zero _ => true
  | _ => false
  end.

(** *** Numbers: [int] and [float] *)

Inductive num : Set :=
| NInt (z : Z)
| NFloat (f : float).

(** [float(int)]: raises [OverflowError] when the integer is too large. *)
Definition int_to_float (z : Z) : result float :=
  let f := Z2SF z in
  if is_finite f then Ok f else Raise OverflowError.

Definition to_float (x : num) : result float :=
  match x with
  | NInt z => int_to_float z
  | NFloat f => Ok f
  end.

(** [x / y] on floats ([float_div]): a zero divisor raises. *)
Definition float_div (a b : float) : result float :=
  if is_zero b then Raise ZeroDivisionError
  else Ok (SFdiv prec emax a b).

(** [x / y] on ints ([long_true_divide]): the correctly rounded quotient. *)
Definition int_true_divide (a b : Z) : result float :=
  match b with
  | Z0 => Raise ZeroDivisionError
  | _ =>
    match a with
    | Z0 => Ok (S754_zero (b <? 0))
    | _ =>
      let f := ratio2SF (negb (Bool.eqb (a <? 0) (b <? 0)))
                        (Z.to_pos (Z.abs a)) (Z.to_pos (Z.abs b)) in
      if is_finite f then Ok f else Raise OverflowError
    end
  end.

(** [x / y] on numbers. *)
Definition truediv (x y : num) : result float :=
  match x, y with
  | NInt a, NInt b => int_true_divide a b
  | _, _ =>
    bind (to_float x) (fun a =>
    bind (to_float y) (fun b => float_div a b))
  end.

(** [x > 0]. *)
Definition gt0 (x : num) : bool :=
  match x with
  | NInt z => 0 <? z
  | NFloat f => SFltb (S754_zero false) f
  end.

(** [int(x)]: truncation toward zero; infinities and NaN raise. *)
Definition py_int (x : num) : result Z :=
  match x with
  | NInt z => Ok z
  | NFloat (S754_zero _) => Ok 0
  | NFloat (S754_infinity _) => Raise OverflowError
  | NFloat S754_nan => Raise ValueError
  | NFloat (S754_finite s m e) =>
    let a := match e with
             | Zneg p => Z.shiftr (Zpos m) (Zpos p)
             | _ => Z.shiftl (Zpos m) e
             end in
    Ok (if s then - a else a)
  end.

(** [round(x, 2)] on a float ([double_round]): the exact value of [x] is
    rounded half-to-even to two decimals, and the decimal is converted back
    to the nearest double. *)
Definition round_half_even_div (n d : Z) : Z :=
  let q := n / d in
  let r := n mod d in
  match 2 * r ?= d with
  | Lt => q
  | Gt => q + 1
  | Eq => if Z.even q then q else q + 1
  end.

Definition hundredths (m : positive) (e : Z) : Z :=
  match e with
  | Zneg p => round_half_even_div (Zpos m * 100) (Z.pow_pos 2 p)
  | _ => Z.shiftl (Zpos m) e * 100
  end.

Definition double_round2 (x : float) : result float :=
  match x with
  | S754_finite s m e =>
    match hundredths m e with
    | Zpos n =>
      let r := ratio2SF s n 100 in
      if is_finite r then Ok r else Raise OverflowError
    | _ => Ok (S754_zero s)
    end
  | _ => Ok x
  end.

(** [round(x, 2)]: an [int] is returned unchanged. *)
Definition round2 (x : num) : result num :=
  match x with
  | NInt z => Ok (NInt z)
  | NFloat f => bind (double_round2 f) (fun r => Ok (NFloat r))
  end.

End Py.

Import Py.

Notation "x <- m ;; k" := (bind m (fun x => k))
  (at level 61, m at next level, right associativity).

(** ** Characters *)

(** Classes of code points as lists of inclusive ranges. *)
Definition in_range (c : char) (r : N * N) : bool :=
  ((fst r <=? c) && (c <=? snd r))%N.

Definition in_ranges (rs : list (N * N)) (c : char) : bool :=
  existsb (in_range c) rs.

(** The code points of a range, in order. *)
Definition points (r : N * N) : list N :=
  map N.of_nat
      (List.seq (N.to_nat (fst r)) (S (N.to_nat (snd r) - N.to_nat (fst r)))).

Definition is_char (a : ascii) (c : char) : bool := N.eqb (N_of_ascii a) c.

(** The digit zero of every run of decimal digits (general category Nd)
    of Unicode 14.0.0, the character database of CPython 3.11; each zero
    is followed by its digits one to nine. *)
Definition decimal_zeros : list N :=
  [
    48; 1632; 1776; 1984; 2406; 2534; 2662; 2790; 2918; 3046; 3174;
    3302; 3430; 3558; 3664; 3792; 3872; 4160; 4240; 6112; 6160; 6470;
    6608; 6784; 6800; 6992; 7088; 7232; 7248; 42528; 43216; 43264;
    43472; 43504; 43600; 44016; 65296; 66720; 68912; 69734; 69872;
    69942; 70096; 70384; 70736; 70864; 71248; 71360; 71472; 71904;
    72016; 72784; 73040; 73120; 92768; 92864; 93008; 120782; 120792;
    120802; 120812; 120822; 123200; 123632; 125264; 130032
  ]%N.

Definition digit_ranges : list (N * N) :=
  map (fun z => (z, z + 9)%N) decimal_zeros.

(** [\d] of a [str] pattern: every Unicode decimal digit. *)
Definition digit (c : char) : bool := in_ranges digit_ranges c.

(** The white space of [str.isspace]: tab to carriage return, the
    separators 28..31, the space, NEL, the no-break space, the Ogham
    space, the spaces U+2000..U+200A, the line and paragraph separators,
    the narrow no-break space, the medium mathematical space and the
    ideographic space. *)
Definition space_ranges : list (N * N) :=
  [ (9, 13); (28, 32); (133, 133); (160, 160); (5760, 5760); (8192, 8202);
    (8232, 8233); (8239, 8239); (8287, 8287); (12288, 12288) ]%N.

(** [\s] of a [str] pattern: every Unicode white space. *)
Definition space (c : char) : bool := in_ranges space_ranges c.

(** [.] without DOTALL: everything but the line feed. *)
Definition dot (c : char) : bool := negb (N.eqb nl c).

(** The class [[\d.e+-]]. *)
Definition value_char (c : char) : bool :=
  (digit c || is_char "." c || is_char "e" c
   || is_char "+" c || is_char "-" c)%bool.

(** Characters of a metric family name, [[A-Za-z0-9_:]]: each of them
    stands for itself when interpolated into a pattern. *)
Definition name_ranges : list (N * N) :=
  [ (65, 90); (97, 122); (48, 57); (95, 95); (58, 58) ]%N.

Definition name_char (c : char) : bool := in_ranges name_ranges c.

Arguments digit : simpl never.
Arguments space : simpl never.
Arguments dot : simpl never.
Arguments value_char : simpl never.
Arguments name_char : simpl never.
Arguments is_char : simpl never.

Definition plain_name (s : str) : bool := forallb name_char s.

(** ** float(str) on tokens of the class [[\d.e+-]] *)

Fixpoint span (p : char -> bool) (s : str) : str * str :=
  match s with
  | c :: s' =>
    if p c then let '(a, b) := span p s' in (c :: a, b) else ([], s)
  | [] => ([], [])
  end.

(** The value of a decimal digit, as [float] reads it: its distance from
    the zero of its run. *)
Definition digit_val (c : char) : Z :=
  match find (fun z => in_range c (z, z + 9)%N) decimal_zeros with
  | Some z => Z.of_N (c - z)
  | None => 0
  end.

Definition decimal (ds : str) : Z :=
  fold_left (fun acc c => 10 * acc + digit_val c) ds 0.

Definition take_sign (s : str) : bool * str :=
  match s with
  | c :: r =>
    if is_char "-" c then (true, r)
    else if is_char "+" c then (false, r)
    else (false, s)
  | [] => (false, s)
  end.

(** The exponent part: empty, or [e] or [E], an optional sign and at least
    one digit, up to the end of the token. *)
Definition exponent (s : str) : option Z :=
  match s with
  | [] => Some 0
  | c :: r =>
    if (is_char "e" c || is_char "E" c)%bool then
      let '(neg, r1) := take_sign r in
      match span digit r1 with
      | ((_ :: _) as ds, []) => Some (if neg then - decimal ds else decimal ds)
      | _ => None
      end
    else None
  end.

(** The double nearest to [m * 10 ^ e]. *)
Definition decimal2SF (s : bool) (m : Z) (e : Z) : float :=
  match m with
  | Zpos p =>
    match e with
    | Zneg q => ratio2SF s p (Pos.pow 10 q)
    | _ => binary_round prec emax s (Z.to_pos (Zpos p * 10 ^ e)) 0
    end
  | _ => S754_zero s
  end.

(** [float(value)].  The grammar is [sign? (digits [. digits?] | . digits)
    ([eE] sign? digits)?]; surrounding white space, underscores and the
    spellings of infinity and NaN cannot occur in a token of [[\d.e+-]+]
    and are not modelled. *)
Definition py_float (s : str) : result float :=
  let '(neg, r) := take_sign s in
  let '(ip, r1) := span digit r in
  let '(fp, r2) := match r1 with
                   | c :: r' => if is_char "." c then span digit r' else ([], r1)
                   | [] => ([], r1)
                   end in
  match ip ++ fp with
  | [] => Raise ValueError
  | ds =>
    match exponent r2 with
    | Some e => Ok (decimal2SF neg (decimal ds) (e - Z.of_nat (List.length fp)))
    | None => Raise ValueError
    end
  end.

(** ** Dictionaries in insertion order *)

Section Dict.
Variable V : Type.

Definition dict : Type := list (str * V).

Fixpoint dict_get (k : str) (d : dict) : option V :=
  match d with
  | [] => None
  | (k', v) :: d' => if str_eqb k k' then Some v else dict_get k d'
  end.

(** [d[k] = v]: an existing key keeps its place, a new key goes last. *)
Fixpoint dict_set (k : str) (v : V) (d : dict) : dict :=
  match d with
  | [] => [(k, v)]
  | (k', v') :: d' =>
    if str_eqb k k' then (k', v) :: d' else (k', v') :: dict_set k v d'
  end.

Definition keys (d : dict) : list str := map fst d.
End Dict.

(** ** The regular expression engine

    A backtracking matcher for the constructs of the pattern in
    [parse_metrics]: literal text, a lazy star and a greedy plus over a
    one-character class, capturing groups and concatenation.  Alternatives
    are tried in the order of [re]: a lazy star tries the shortest
    repetition first, a greedy plus the longest. *)

Module Re.

Inductive regex : Type :=
| Lit (l : str)
| LazyStar (p : char -> bool)
| Plus (p : char -> bool)
| Group (i : nat) (r : regex)
| Cat (r1 r2 : regex).

Definition captures : Set := list (nat * str).

Definition set_group (i : nat) (s : str) (caps : captures) : captures :=
  (i, s) :: caps.

Fixpoint group (i : nat) (caps : captures) : str :=
  match caps with
  | [] => []
  | (j, s) :: caps' => if Nat.eqb i j then s else group i caps'
  end.

Fixpoint strip_prefix (l s : str) : option str :=
  match l, s with
  | [], _ => Some s
  | a :: l', c :: s' => if N.eqb a c then strip_prefix l' s' else None
  | _ :: _, [] => None
  end.

Section Run.
Variable R : Type.

Fixpoint lazy_star (p : char -> bool) (s : str) (k : str -> option R)
  : option R :=
  match k s with
  | Some r => Some r
  | None =>
    match s with
    | c :: s' => if p c then lazy_star p s' k else None
    | [] => None
    end
  end.

Fixpoint greedy_star (p : char -> bool) (s : str) (k : str -> option R)
  : option R :=
  match s with
  | c :: s' =>
    if p c then
      match greedy_star p s' k with
      | Some r => Some r
      | None => k s
      end
    else k s
  | [] => k s
  end.

Definition greedy_plus (p : char -> bool) (s : str) (k : str -> option R)
  : option R :=
  match s with
  | c :: s' => if p c then greedy_star p s' k else None
  | [] => None
  end.

(** [run r s caps k]: match [r] at the head of [s]; the continuation [k]
    receives what is left of [s] and the groups closed so far, and its
    failure makes the matcher backtrack. *)
Fixpoint run (r : regex) (s : str) (caps : captures)
         (k : str -> captures -> option R) : option R :=
  match r with
  | Lit l =>
    match strip_prefix l s with
    | Some s' => k s' caps
    | None => None
    end
  | LazyStar p => lazy_star p s (fun s' => k s' caps)
  | Plus p => greedy_plus p s (fun s' => k s' caps)
  | Group i r' =>
    run r' s caps (fun s' caps' =>
      k s' (set_group i (firstn (List.length s - List.length s') s) caps'))
  | Cat r1 r2 =>
    run r1 s caps (fun s' caps' => run r2 s' caps' k)
  end.
End Run.

(** A match at the head of [s]: its length and its groups. *)
Definition match_at (r : regex) (s : str) : option (nat * captures) :=
  run r s [] (fun s' caps => Some (List.length s - List.length s', caps))%nat.

(** [finditer]: the matches of [r] in [s] from left to right, without
    overlap, each with its start offset.  [skip] counts the characters
    still covered by the previous match.  (The rule for a search resumed
    after an empty match is not needed: a pattern with a literal in it
    matches no empty string.) *)
Fixpoint finditer (r : regex) (s : str) (skip pos : nat)
  : list (nat * captures) :=
  match s with
  | [] =>
    match skip, match_at r [] with
    | O, Some (_, caps) => [(pos, caps)]
    | _, _ => []
    end
  | _ :: s' =>
    match skip with
    | S n => finditer r s' n (S pos)
    | O =>
      match match_at r s with
      | Some (len, caps) => (pos, caps) :: finditer r s' (pred len) (S pos)
      | None => finditer r s' O (S pos)
      end
    end
  end.

(** [findall] for a pattern with two groups: the pairs of groups. *)
Definition findall (r : regex) (s : str) : list (str * str) :=
  map (fun m => (group 1 (snd m), group 2 (snd m))) (finditer r s 0 0).

Fixpoint seq (rs : list regex) : regex :=
  match rs with
  | [] => Lit []
  | [r] => r
  | r :: rs' => Cat r (seq rs')
  end.

End Re.

Import Re.

(** ** [parse_metrics] *)

(** The text [bdb='] that opens the label. *)
Definition bdb_key : str := lit "bdb=" ++ [dq].

(** The pattern that [parse_metrics] compiles: the family name, [\{],
    [.*?], the text [bdb=] and a double quote, the group [(\d+)], a double
    quote and a comma, [.*?], [\}], [\s+] and the group [([\d.e+-]+)].
    The name is interpolated unescaped; the embedding covers the names of
    [plain_name], where the interpolated text is a literal. *)
Definition pattern (metric_name : str) : regex :=
  seq [ Lit metric_name; Lit (lit "{"); LazyStar dot;
        Lit bdb_key; Group 1 (Plus digit); Lit (dq :: lit ",");
        LazyStar dot; Lit (lit "}"); Plus space; Group 2 (Plus value_char) ].

(** [{db: float(value) for db, value in matches}] *)
Fixpoint dict_comp (matches : list (str * str)) (d : dict float)
  : result (dict float) :=
  match matches with
  | [] => Ok d
  | (db, value) :: ms =>
    f <- py_float value ;;
    dict_comp ms (dict_set db f d)
  end.

Definition parse_metrics (data : str) (metric_name : str)
  : result (dict float) :=
  let matches := findall (pattern metric_name) data in
  dict_comp matches [].

(** ** JSON documents as Python values *)

#[local] Unset Elimination Schemes.

Inductive value : Type :=
| VNone
| VBool (b : bool)
| VInt (z : Z)
| VFloat (f : float)
| VStr (s : str)
| VList (l : list value)
| VDict (d : list (str * value)).

#[local] Set Elimination Schemes.

Definition NA : value := VStr (lit "N/A").

(** [bool] is a subclass of [int]. *)
Definition as_num (v : value) : option num :=
  match v with
  | VBool b => Some (NInt (if b then 1 else 0))
  | VInt z => Some (NInt z)
  | VFloat f => Some (NFloat f)
  | _ => None
  end.

(** [a + b] *)
Definition py_add (a b : value) : result value :=
  match a, b with
  | VStr x, VStr y => Ok (VStr (x ++ y))
  | VList x, VList y => Ok (VList (x ++ y))
  | _, _ =>
    match as_num a, as_num b with
    | Some (NInt x), Some (NInt y) => Ok (VInt (x + y))
    | Some x, Some y =>
      fx <- to_float x ;;
      fy <- to_float y ;;
      Ok (VFloat (SFadd prec emax fx fy))
    | _, _ => Raise TypeError
    end
  end.

(** [a > 0] *)
Definition py_gt0 (a : value) : result bool :=
  match as_num a with
  | Some x => Ok (gt0 x)
  | None => Raise TypeError
  end.

(** [a / b] *)
Definition py_truediv (a b : value) : result float :=
  match as_num a, as_num b with
  | Some x, Some y => truediv x y
  | _, _ => Raise TypeError
  end.

(** The f-string field [{a:.2f}]: only the exception matters, the text
    goes to the log.  A string has no format code [f]; [None], lists and
    dicts reject the format specification. *)
Definition format_2f (a : value) : result unit :=
  match a with
  | VStr _ => Raise ValueError
  | _ =>
    match as_num a with
    | Some x => _ <- to_float x ;; Ok tt
    | None => Raise TypeError
    end
  end.

(** [d.get(key, default)] on a value. *)
Definition py_get (d : value) (key : str) (default : value) : result value :=
  match d with
  | VDict kv =>
    Ok match dict_get key kv with
       | Some v => v
       | None => default
       end
  | _ => Raise AttributeError
  end.

(** [d[key]] on a value. *)
Definition py_getitem (d : value) (key : str) : result value :=
  match d with
  | VDict kv =>
    match dict_get key kv with
    | Some v => Ok v
    | None => Raise KeyError
    end
  | _ => Raise TypeError
  end.

(** ** The script *)

Section Script.

(** [repr] of floats, lists and dicts, which [str] falls back to; its text
    is not modelled. *)
Variable repr : value -> str.

(** [str(v)] *)
Definition py_str (v : value) : str :=
  match v with
  | VStr s => s
  | VInt z => lit (NilZero.string_of_int (Z.to_int z))
  | VBool true => lit "True"
  | VBool false => lit "False"
  | VNone => lit "None"
  | _ => repr v
  end.

(** A response of [requests]: its status code, what [response.json()]
    makes of the body (the decoded document, or the exception of the
    decoder) and [response.text]. *)
Record response : Type := {
  status_code : Z;
  json : result value;
  text : str
}.

(** [response.raise_for_status()]: an [HTTPError] for the client errors
    400..499 and the server errors 500..599, and nothing for any other
    status. *)
Definition raise_for_status (r : response) : result unit :=
  if ((400 <=? status_code r) && (status_code r <? 600))%bool
  then Raise HTTPError
  else Ok tt.

(** [get_json_response(url)].  What [requests.get] does for the URL, a
    response or an exception, is an input of the model. *)
Definition get_json_response (answer : result response) : result value :=
  response <- answer ;;
  _ <- raise_for_status response ;;
  json response.

(** [fetch_metrics_data()] *)
Definition fetch_metrics_data (answer : result response) : result str :=
  response <- answer ;;
  _ <- raise_for_status response ;;
  Ok (text response).

Record license_info : Type := {
  cluster_name : value;
  activation_date : value;
  expiration_date : value;
  expired : value;
  shards_limit : value;
  ram_shards_in_use : value;
  flash_shards_in_use : value;
  percentage_shards_used : value
}.

Definition fetch_license_data (answer : result response)
  : result license_info :=
  license_data <- get_json_response answer ;;
  cluster_name <- py_get license_data (lit "cluster_name") NA ;;
  activation_date <- py_get license_data (lit "activation_date") NA ;;
  expiration_date <- py_get license_data (lit "expiration_date") NA ;;
  expired <- py_get license_data (lit "expired") NA ;;
  shards_limit <- py_get license_data (lit "shards_limit") (VInt 0) ;;
  ram_shards_in_use <-
    py_get license_data (lit "ram_shards_in_use") (VInt 0) ;;
  flash_shards_in_use <-
    py_get license_data (lit "flash_shards_in_use") (VInt 0) ;;
  total_shards_in_use <- py_add ram_shards_in_use flash_shards_in_use ;;
  positive <- py_gt0 shards_limit ;;
  percent_shards_used <-
    (if positive : bool then
       q <- py_truediv total_shards_in_use shards_limit ;;
       Ok (VFloat (SFmul prec emax q (Z2SF 100)))
     else Ok NA) ;;
  (* logging.info of the f-string field {percent_shards_used:.2f} *)
  _ <- format_2f percent_shards_used ;;
  Ok {| cluster_name := cluster_name;
        activation_date := activation_date;
        expiration_date := expiration_date;
        expired := expired;
        shards_limit := shards_limit;
        ram_shards_in_use := ram_shards_in_use;
        flash_shards_in_use := flash_shards_in_use;
        percentage_shards_used := percent_shards_used |}.

(** What [for bdb in bdbs_data] iterates over. *)
Definition py_iter (v : value) : result (list value) :=
  match v with
  | VList l => Ok l
  | VDict kv => Ok (map (fun p => VStr (fst p)) kv)
  | VStr s => Ok (map (fun c => VStr [c]) s)
  | _ => Raise TypeError
  end.

(** [{str(bdb['uid']): bdb for bdb in bdbs_data}].  A record that can be
    subscripted by ['uid'] is a dict, so the mapping holds dicts. *)
Fixpoint index_bdbs (records : list value) (d : dict (dict value))
  : result (dict (dict value)) :=
  match records with
  | [] => Ok d
  | bdb :: rest =>
    uid <- py_getitem bdb (lit "uid") ;;
    match bdb with
    | VDict fields => index_bdbs rest (dict_set (py_str uid) fields d)
    | _ => Raise TypeError
    end
  end.

Definition fetch_bdbs_data (answer : result response)
  : result (dict (dict value)) :=
  bdbs_data <- get_json_response answer ;;
  records <- py_iter bdbs_data ;;
  index_bdbs records [].

Record entry : Type := {
  database_id : str;
  bdb_name : value;
  shards_count : value;
  memory_used_mb : float;
  total_memory_mb : float;
  memory_usage_percentage : num;
  total_keys : Z
}.

(** [table.get(db_id, default)] on a metric table. *)
Definition get_num (table : dict float) (db_id : str) (default : Z) : num :=
  match dict_get db_id table with
  | Some f => NFloat f
  | None => NInt default
  end.

(** [bdbs_mapping.get(db_id, {}).get(field, 'N/A')] *)
Definition bdb_field (bdbs_mapping : dict (dict value)) (db_id field : str)
  : value :=
  let bdb := match dict_get db_id bdbs_mapping with
             | Some fields => fields
             | None => []
             end in
  match dict_get field bdb with
  | Some v => v
  | None => NA
  end.

Definition MiB : Z := 1024 * 1024.

(** The body of the loop over [used_memory.items()] in [main]. *)
Definition database_entry (bdbs_mapping : dict (dict value))
           (used_memory memory_limit total_keys_data : dict float)
           (db_id : str) : result entry :=
  let bdb_name := bdb_field bdbs_mapping db_id (lit "name") in
  let shards_count := bdb_field bdbs_mapping db_id (lit "shards_count") in
  memory_used_mb <- truediv (get_num used_memory db_id 0) (NInt MiB) ;;
  memory_total_mb <- truediv (get_num memory_limit db_id 1) (NInt MiB) ;;
  total_keys <- py_int (get_num total_keys_data db_id 0) ;;
  percent_memory_used <-
    (if gt0 (NFloat memory_total_mb) then
       q <- float_div memory_used_mb memory_total_mb ;;
       Ok (NFloat (SFmul prec emax q (Z2SF 100)))
     else Ok (NInt 0)) ;;
  rounded <- round2 percent_memory_used ;;
  Ok {| database_id := db_id;
        bdb_name := bdb_name;
        shards_count := shards_count;
        memory_used_mb := memory_used_mb;
        total_memory_mb := memory_total_mb;
        memory_usage_percentage := rounded;
        total_keys := total_keys |}.

(** The loop [for db_id, metrics in used_memory.items()]: one entry per key
    of [used_memory], appended to [database_list] in iteration order. *)
Fixpoint database_loop (bdbs_mapping : dict (dict value))
         (used_memory memory_limit total_keys_data : dict float)
         (items : list (str * float)) : result (list entry) :=
  match items with
  | [] => Ok []
  | (db_id, _) :: rest =>
    e <- database_entry bdbs_mapping used_memory memory_limit
                        total_keys_data db_id ;;
    es <- database_loop bdbs_mapping used_memory memory_limit
                        total_keys_data rest ;;
    Ok (e :: es)
  end.

Definition build_databases (bdbs_mapping : dict (dict value))
           (used_memory memory_limit total_keys_data : dict float)
  : result (list entry) :=
  database_loop bdbs_mapping used_memory memory_limit total_keys_data
                used_memory.

(** The dict of [license_info] extended with the key [databases]. *)
Record report : Type := {
  license : license_info;
  databases : list entry
}.

(** What the three endpoints answer in one poll. *)
Record responses : Type := {
  license_response : result response;
  bdbs_response : result response;
  metrics_response : result response
}.

(** The body of the [try] block of [main], up to the value that is
    printed. *)
Definition poll (r : responses) : result report :=
  license_info <- fetch_license_data (license_response r) ;;
  bdbs_mapping <- fetch_bdbs_data (bdbs_response r) ;;
  metrics_response <- fetch_metrics_data (metrics_response r) ;;
  used_memory <- parse_metrics metrics_response (lit "bdb_used_memory") ;;
  memory_limit <- parse_metrics metrics_response (lit "bdb_memory_limit") ;;
  total_keys_data <- parse_metrics metrics_response (lit "redis_db_keys") ;;
  database_list <-
    build_databases bdbs_mapping used_memory memory_limit total_keys_data ;;
  Ok {| license := license_info; databases := database_list |}.

(** [main()]: the document written to standard output by
    [print(json.dumps(output_json, indent=4))], or [None] when an exception
    reached [except Exception], which only logs. *)
Definition main (r : responses) : option report :=
  match poll r with
  | Ok output_json => Some output_json
  | Raise _ => None
  end.

End Script.

(** ** Vocabulary of the statements *)

(** The strings that a regular expression matches in full. *)
Fixpoint denotes (r : regex) (a : str) : Prop :=
  match r with
  | Lit l => a = l
  | LazyStar p => forallb p a = true
  | Plus p => a <> [] /\ forallb p a = true
  | Group _ r' => denotes r' a
  | Cat r1 r2 => exists a1 a2, a = a1 ++ a2 /\ denotes r1 a1 /\ denotes r2 a2
  end.

(** [s] is empty or starts with a character outside the class [p]: a greedy
    repetition of [p] stops in front of [s]. *)
Definition stops (p : char -> bool) (s : str) : bool :=
  match s with
  | [] => true
  | c :: _ => negb (p c)
  end.

(** No [bdb='] starts inside [pre] when [pre] is followed by [bdb=']. *)
Fixpoint bdb_label_free (pre : str) : bool :=
  match pre with
  | [] => true
  | _ :: pre' =>
    match strip_prefix bdb_key (pre ++ bdb_key) with
    | Some _ => false
    | None => bdb_label_free pre'
    end
  end.

(** The text of a label list on either side of the [bdb] label: no line
    feed before it; no line feed and no closing brace after it. *)
Definition label_text (s : str) : bool := forallb dot s.

Definition label_tail (s : str) : bool :=
  forallb (fun c => dot c && negb (is_char "}" c))%bool s.

(** [name{pre bdb='X',post}ws V]: a sample line whose [bdb] label is
    followed by a comma. *)
Definition metric_line (name pre X post ws V : str) : str :=
  name ++ lit "{" ++ pre ++ bdb_key ++ X ++ (dq :: lit ",") ++ post
       ++ lit "}" ++ ws ++ V.

(** A family name of [plain_name] that starts with a character outside
    [[\d.e+-]]. *)
Definition metric_name_ok (name : str) : bool :=
  match name with
  | c :: _ => (negb (value_char c) && plain_name name)%bool
  | [] => false
  end.

(** [before] is empty or ends with a line feed. *)
Definition at_line_start (before : str) : bool :=
  match rev before with
  | [] => true
  | c :: _ => N.eqb nl c
  end.

(** The value stored for [X] by the last pair of [ms] with key [X]. *)
Fixpoint last_value (X : str) (ms : list (str * str)) : option str :=
  match ms with
  | [] => None
  | (k, v) :: ms' =>
    match last_value X ms' with
    | Some v' => Some v'
    | None => if str_eqb X k then Some v else None
    end
  end.

Definition brace_free (s : str) : bool :=
  forallb (fun c => negb (is_char "{" c)) s.

(** *** Rounding, in the words of the specification

    The exact value of the finite double [S754_finite s m e] is
    [m * 2 ^ e], negated when [s] holds.  The statements about rounding
    compare exact values, written with integers: no function of the
    embedding occurs in them. *)

(** The magnitude of a double in units of [2 ^ -1074], the smallest
    positive double: an integer for every double of binary64. *)
Definition units (x : float) : Z :=
  match x with
  | S754_finite _ m e => Zpos m * 2 ^ (e + 1074)
  | _ => 0
  end.

Definition mantissa (x : float) : Z :=
  match x with
  | S754_finite _ m _ => Zpos m
  | _ => 0
  end.

Definition sign (x : float) : bool :=
  match x with
  | S754_zero s | S754_infinity s | S754_finite s _ _ => s
  | S754_nan => false
  end.

(** The finite doubles of binary64: zeros, and mantissas of at most 53 bits
    at the exponent that the format gives them. *)
Definition binary64 (y : float) : Prop :=
  is_finite y = true /\ valid_binary prec emax y = true.

(** [n] is the integer nearest to [a / b], the even one of two equally
    near. *)
Definition nearest_integer (a b n : Z) : Prop :=
  2 * Z.abs (a - n * b) <= b /\
  (2 * Z.abs (a - n * b) = b -> Z.even n = true).

(** The distance from the magnitude of [y] to [a / b], in units of
    [2 ^ -1074 / b]. *)
Definition distance (a b : Z) (y : float) : Z :=
  Z.abs (units y * b - a * 2 ^ 1074).

(** [p] is the double whose magnitude is nearest to [a / b], the one of
    even mantissa of two equally near. *)
Definition nearest_double (a b : Z) (p : float) : Prop :=
  binary64 p /\
  forall y, binary64 y ->
    distance a b p <= distance a b y /\
    (distance a b p = distance a b y -> units y <> units p ->
     Z.even (mantissa p) = true).

(** [p] is [x] rounded to two decimals: [n / 100] is the multiple of one
    hundredth nearest to the exact value of [x], and [p] is the double
    nearest to [n / 100], both with ties to even and with the sign of [x];
    zeros, infinities and NaN are kept. *)
Definition rounded_to_2_decimals (x p : float) : Prop :=
  match x with
  | S754_finite s m e =>
    exists n : Z,
      match e with
      | Zneg q => nearest_integer (100 * Zpos m) (2 ^ Zpos q) n
      | _ => nearest_integer (100 * Zpos m * 2 ^ e) 1 n
      end /\
      sign p = s /\ nearest_double n 100 p
  | _ => p = x
  end.

(** The position of [a / b] between [m] and [m + 1], as a [location]
    records it. *)
Definition inbetween (m : Z) (l : location) (a b : Z) : Prop :=
  match l with
  | loc_Exact => a = m * b
  | loc_Inexact Lt => m * b < a /\ 2 * a < (2 * m + 1) * b
  | loc_Inexact Eq => 2 * a = (2 * m + 1) * b
  | loc_Inexact Gt => (2 * m + 1) * b < 2 * a /\ a < (m + 1) * b
  end.

(** ** Example data *)

Definition sample (name labels value : str) : str :=
  name ++ lit "{" ++ labels ++ lit "} " ++ value.

Definition label (key val : str) : str := key ++ lit "=" ++ quoted val.

(** The line [m{a='x',bdb='1'} 5], where the [bdb] label comes last. *)
Definition bdb_last_text : str :=
  sample (lit "m") (label (lit "a") (lit "x") ++ lit ","
                    ++ label (lit "bdb") (lit "1")) (lit "5").

(** [some_prefix_bdb_used_memory{bdb='1',cluster='c'} 5] *)
Definition suffix_text : str :=
  sample (lit "some_prefix_bdb_used_memory")
         (label (lit "bdb") (lit "1") ++ lit ","
          ++ label (lit "cluster") (lit "c")) (lit "5").

(** The two lines [m{bdb='1'} 5] and [m{bdb='1'} 7]. *)
Definition duplicate_text : str :=
  sample (lit "m") (label (lit "bdb") (lit "1")) (lit "5") ++ [nl]
  ++ sample (lit "m") (label (lit "bdb") (lit "1")) (lit "7").

(** The two lines [m{bdb='1',} 5] and [m{bdb='1',} 7]. *)
Definition duplicate_comma_text : str :=
  sample (lit "m") (label (lit "bdb") (lit "1") ++ lit ",") (lit "5") ++ [nl]
  ++ sample (lit "m") (label (lit "bdb") (lit "1") ++ lit ",") (lit "7").

(** [m{bdb='1',cluster='c'} 1.2.3] *)
Definition bad_value_text : str :=
  sample (lit "m") (label (lit "bdb") (lit "1") ++ lit ","
                    ++ label (lit "cluster") (lit "c")) (lit "1.2.3").

(** Three lines: a comment, a sample of [bdb_used_memory] whose [bdb] label
    stands between two others, and a sample of another family. *)
Definition three_line_text : str :=
  (lit "# TYPE bdb_used_memory gauge" ++ [nl])
  ++ metric_line (lit "bdb_used_memory")
       (label (lit "cluster") (lit "c") ++ lit ",") (lit "12")
       (label (lit "node") (lit "3")) (lit " ") (lit "1.5e3")
  ++ nl :: sample (lit "bdb_memory_limit")
                  (label (lit "bdb") (lit "12") ++ lit ",") (lit "9").

(** An answer with the given status and JSON document, and one with the
    given status and text; [answered] and [answered_text] have status
    200. *)
Definition answer_json (status : Z) (v : value) : result response :=
  Ok {| status_code := status; json := Ok v; text := [] |}.

Definition answer_text (status : Z) (t : str) : result response :=
  Ok {| status_code := status; json := Raise JSONDecodeError; text := t |}.

Definition answered (v : value) : result response := answer_json 200 v.

Definition answered_text (t : str) : result response := answer_text 200 t.

(** The inventory [[{'uid': 1, 'name': 'mydb', 'shards_count': 2}]]. *)
Definition inventory_example : value :=
  VList [VDict [(lit "uid", VInt 1); (lit "name", VStr (lit "mydb"));
                (lit "shards_count", VInt 2)]].

Definition used_memory_example : dict float := [(lit "1", Z2SF 52428800)].
Definition memory_limit_example : dict float := [(lit "1", Z2SF 104857600)].
Definition total_keys_example : dict float := [(lit "1", Z2SF 1000)].

Definition entry_example : entry :=
  {| database_id := lit "1";
     bdb_name := VStr (lit "mydb");
     shards_count := VInt 2;
     memory_used_mb := Z2SF 50;
     total_memory_mb := Z2SF 100;
     memory_usage_percentage := NFloat (Z2SF 50);
     total_keys := 1000 |}.

(** The double [2 ^ -20], that is [1 / 1048576]: the mantissa [2 ^ 52]
    with the exponent [-72]. *)
Definition one_byte_in_mb : float := S754_finite false (2 ^ 52) (-72).

(** The entry for used memory of 50 MiB when the other tables and the
    inventory are empty. *)
Definition entry_no_limit : entry :=
  {| database_id := lit "1";
     bdb_name := NA;
     shards_count := NA;
     memory_used_mb := Z2SF 50;
     total_memory_mb := one_byte_in_mb;
     memory_usage_percentage := NFloat (Z2SF 5242880000);
     total_keys := 0 |}.

(** The license objects [{}] and [{'shards_limit': 0, 'ram_shards_in_use': 5}]
    and [{'shards_limit': 10, 'ram_shards_in_use': 3, 'flash_shards_in_use': 2}]. *)
Definition license_empty : value := VDict [].

Definition license_zero_limit : value :=
  VDict [(lit "shards_limit", VInt 0); (lit "ram_shards_in_use", VInt 5)].

Definition license_half_used : value :=
  VDict [(lit "shards_limit", VInt 10); (lit "ram_shards_in_use", VInt 3);
         (lit "flash_shards_in_use", VInt 2)].

Definition is_object (v : value) : Prop := exists fields, v = VDict fields.

(** An inventory whose second record has a name and no uid. *)
Definition inventory_without_uid : list value :=
  [VDict [(lit "uid", VInt 1); (lit "name", VStr (lit "mydb"))];
   VDict [(lit "name", VStr (lit "orphan"))]].

(** The line [bdb_used_memory{bdb='2',} 1] followed by the line
    [some_prefix_bdb_used_memory{bdb='1',cluster='c'} 5]. *)
Definition suffix_later_text : str :=
  (sample (lit "bdb_used_memory") (label (lit "bdb") (lit "2") ++ lit ",")
          (lit "1") ++ [nl])
  ++ metric_line (lit "some_prefix_" ++ lit "bdb_used_memory")
       [] (lit "1") (label (lit "cluster") (lit "c")) (lit " ") (lit "5").

(** The line [other{x='bdb_used_memory{',bdb='3',} 7], where the family
    name and a brace stand inside a label value. *)
Definition inside_label_text : str :=
  sample (lit "other")
         (label (lit "x") (lit "bdb_used_memory{") ++ lit ","
          ++ label (lit "bdb") (lit "3") ++ lit ",") (lit "7").

(** The line [m{xbdb='7',bdb='1'} 5], where [bdb='7',] ends another
    label. *)
Definition bdb_inside_key_text : str :=
  sample (lit "m") (label (lit "xbdb") (lit "7") ++ lit ","
                    ++ label (lit "bdb") (lit "1")) (lit "5").

(** Used memory of 1, 5 and 52428800 bytes for the ids 1, 2 and 3, with
    limits of 3 bytes for id 1 and of 0 bytes for id 2, and the entries
    built from them.  The percentage of id 1 is the double nearest to
    33.33, that is [4690780486883082 * 2 ^ -47]; before the rounding it is
    [4691249611844266 * 2 ^ -47], the double that [1 / 3 * 100] gives. *)
Definition used_memory_thirds : dict float :=
  [(lit "1", Z2SF 1); (lit "2", Z2SF 5); (lit "3", Z2SF 52428800)].

Definition memory_limit_thirds : dict float :=
  [(lit "1", Z2SF 3); (lit "2", S754_zero false)].

Definition entry_third : entry :=
  {| database_id := lit "1";
     bdb_name := NA;
     shards_count := NA;
     memory_used_mb := one_byte_in_mb;
     total_memory_mb := S754_finite false (3 * 2 ^ 51) (-71);
     memory_usage_percentage :=
       NFloat (S754_finite false 4690780486883082 (-47));
     total_keys := 0 |}.

Definition entry_zero_limit : entry :=
  {| database_id := lit "2";
     bdb_name := NA;
     shards_count := NA;
     memory_used_mb := S754_finite false (5 * 2 ^ 50) (-70);
     total_memory_mb := S754_zero false;
     memory_usage_percentage := NInt 0;
     total_keys := 0 |}.

Definition entry_third_no_limit : entry :=
  {| database_id := lit "3";
     bdb_name := NA;
     shards_count := NA;
     memory_used_mb := Z2SF 50;
     total_memory_mb := one_byte_in_mb;
     memory_usage_percentage := NFloat (Z2SF 5242880000);
     total_keys := 0 |}.

(** ** Vocabulary of the further properties *)

(** [d.get(key, default)] on the fields of an object. *)
Definition field_or (d : dict value) (key : str) (default : value) : value :=
  match dict_get key d with
  | Some v => v
  | None => default
  end.

(** An inventory record that [bdb['uid']] accepts: an object with the key
    [uid]. *)
Definition has_uid (v : value) : bool :=
  match v with
  | VDict fields =>
    match dict_get (lit "uid") fields with
    | Some _ => true
    | None => false
    end
  | _ => false
  end.

(** The fields of the last record of [records] whose [str(uid)] is [k]. *)
Fixpoint last_record (repr : value -> str) (k : str) (records : list value)
  : option (dict value) :=
  match records with
  | [] => None
  | bdb :: rest =>
    match last_record repr k rest with
    | Some fields => Some fields
    | None =>
      match bdb with
      | VDict fields =>
        match dict_get (lit "uid") fields with
        | Some uid => if str_eqb k (py_str repr uid) then Some fields else None
        | None => None
        end
      | _ => None
      end
    end
  end.

(** A metrics text with one sample of each family for database 1, where
    the used-memory sample is repeated. *)
Definition metrics_example : str :=
  sample (lit "bdb_used_memory")
         (label (lit "bdb") (lit "1") ++ lit ","
          ++ label (lit "cluster") (lit "c")) (lit "1048576")
  ++ nl :: sample (lit "bdb_used_memory")
                  (label (lit "bdb") (lit "1") ++ lit ","
                   ++ label (lit "cluster") (lit "c")) (lit "52428800")
  ++ nl :: sample (lit "bdb_memory_limit")
                  (label (lit "bdb") (lit "1") ++ lit ","
                   ++ label (lit "cluster") (lit "c")) (lit "104857600")
  ++ nl :: sample (lit "redis_db_keys")
                  (label (lit "bdb") (lit "1") ++ lit ","
                   ++ label (lit "cluster") (lit "c")) (lit "1000").

Definition responses_example : responses :=
  {| license_response := answered license_half_used;
     bdbs_response := answered inventory_example;
     metrics_response := answered_text metrics_example |}.

(** The same answers with the status 300 instead of 200. *)
Definition responses_status_300 : responses :=
  {| license_response := answer_json 300 license_half_used;
     bdbs_response := answer_json 300 inventory_example;
     metrics_response := answer_text 300 metrics_example |}.

(** A fetch that fails for the code: [requests.get] raises, or the status
    of the answer is one of 400..599. *)
Definition fetch_failed (answer : result response) : Prop :=
  (exists e, answer = Raise e) \/
  (exists r, answer = Ok r /\ 400 <= status_code r < 600).

(** An answer whose body [response.json()] cannot decode. *)
Definition undecodable (answer : result response) : Prop :=
  exists r e, answer = Ok r /\ json r = Raise e.

Definition report_example : report :=
  {| license :=
       {| cluster_name := NA; activation_date := NA; expiration_date := NA;
          expired := NA; shards_limit := VInt 10;
          ram_shards_in_use := VInt 3; flash_shards_in_use := VInt 2;
          percentage_shards_used := VFloat (Z2SF 50) |};
     databases := [entry_example] |}.

(** A key-count table with an infinite sample for database 1. *)
Definition total_keys_infinite : dict float :=
  [(lit "1", S754_infinity false)].

Unset Implicit Arguments.

(** ** Strings *)

Lemma str_eqb_eq a b : str_eqb a b = true <-> a = b.
Proof.
  unfold str_eqb. destruct (list_eq_dec N.eq_dec a b); split; congruence.
Qed.

Lemma str_eqb_refl a : str_eqb a a = true.
Proof. apply str_eqb_eq. reflexivity. Qed.

Lemma str_eqb_neq a b : str_eqb a b = false <-> a <> b.
Proof.
  unfold str_eqb. destruct (list_eq_dec N.eq_dec a b); split; congruence.
Qed.

(** ** The float model on known values *)

(** [float('0.1')] is [0x3FB999999999999A] and [float('1.5e3')] is 1500. *)
Example py_float_tenth :
  py_float (lit "0.1") = Ok (S754_finite false 7205759403792794 (-56)).
Proof. vm_compute. reflexivity. Qed.

Example py_float_exponent : py_float (lit "1.5e3") = Ok (Z2SF 1500).
Proof. vm_compute. reflexivity. Qed.

Example py_float_signed :
  py_float (lit "-7") = Ok (SFopp (Z2SF 7)) /\
  py_float (lit "+.5e-1") = Ok (ratio2SF false 1 20).
Proof. split; vm_compute; reflexivity. Qed.

(** Tokens of the value class that are no float literals. *)
Example py_float_rejects :
  map py_float [lit "1.2.3"; lit "-"; lit "."; lit "1e"; lit "e5"; lit "--1"]
  = repeat (Raise ValueError) 6.
Proof. vm_compute. reflexivity. Qed.

(** [1 / 3] is [0x3FD5555555555555]. *)
Example int_true_divide_third :
  int_true_divide 1 3 = Ok (S754_finite false 6004799503160661 (-54)).
Proof. vm_compute. reflexivity. Qed.

(** [round(2.675, 2)] is [2.67], the double [2.675] being below the tie;
    [round(0.125, 2)] is [0.12], a tie that goes to the even digit. *)
Example round2_below_tie :
  double_round2 (ratio2SF false 2675 1000) = Ok (ratio2SF false 267 100).
Proof. vm_compute. reflexivity. Qed.

Example round2_tie_to_even :
  double_round2 (ratio2SF false 1 8) = Ok (ratio2SF false 12 100).
Proof. vm_compute. reflexivity. Qed.

Example py_int_truncates :
  py_int (NFloat (ratio2SF true 10007 10)) = Ok (-1000)%Z.
Proof. vm_compute. reflexivity. Qed.

(** ** The matcher *)

Local Open Scope nat_scope.

Section Engine.
Variable R : Type.
Implicit Types (k : str -> option R) (p : char -> bool) (s a : str).

Lemma strip_prefix_app l s : strip_prefix l (l ++ s) = Some s.
Proof.
  induction l as [|c l IH]; simpl; [reflexivity|].
  rewrite N.eqb_refl. exact IH.
Qed.

Lemma strip_prefix_Some l : forall s s',
  strip_prefix l s = Some s' -> s = l ++ s'.
Proof.
  induction l as [|c l IH]; simpl; intros s s' H.
  - congruence.
  - destruct s as [|d s]; [discriminate|].
    destruct (N.eqb c d) eqn:E; [|discriminate].
    apply N.eqb_eq in E. subst d. f_equal. apply IH. exact H.
Qed.

Lemma strip_prefix_head c l d s :
  N.eqb c d = false -> strip_prefix (c :: l) (d :: s) = None.
Proof. intros H. simpl. rewrite H. reflexivity. Qed.

Lemma lazy_star_hit p s k r : k s = Some r -> lazy_star p s k = Some r.
Proof. intros H. destruct s; simpl; rewrite H; reflexivity. Qed.

Lemma lazy_star_at p a : forall s k r,
  forallb p a = true ->
  (forall a1 a2, a = a1 ++ a2 -> a2 <> [] -> k (a2 ++ s) = None) ->
  k s = Some r ->
  lazy_star p (a ++ s) k = Some r.
Proof.
  induction a as [|c a IH]; intros s k r Hp Hk Hr.
  - apply lazy_star_hit. exact Hr.
  - simpl in Hp. apply andb_true_iff in Hp as [Hc Hp].
    assert (H0 : k ((c :: a) ++ s) = None)
      by (apply (Hk [] (c :: a)); [reflexivity | discriminate]).
    simpl in H0 |- *. rewrite H0, Hc. apply IH; auto.
    intros a1 a2 E Hne. apply (Hk (c :: a1) a2); [|exact Hne].
    rewrite E. reflexivity.
Qed.

Lemma greedy_star_at p a : forall s k r,
  forallb p a = true -> stops p s = true -> k s = Some r ->
  greedy_star p (a ++ s) k = Some r.
Proof.
  induction a as [|c a IH]; intros s k r Hp Hs Hr.
  - simpl. destruct s as [|d s]; simpl; [exact Hr|].
    simpl in Hs. apply negb_true_iff in Hs. rewrite Hs. exact Hr.
  - simpl in Hp. apply andb_true_iff in Hp as [Hc Hp].
    simpl. rewrite Hc. rewrite (IH s k r Hp Hs Hr). reflexivity.
Qed.

Lemma greedy_plus_at p a s k r :
  a <> [] -> forallb p a = true -> stops p s = true -> k s = Some r ->
  greedy_plus p (a ++ s) k = Some r.
Proof.
  intros Hne Hp Hs Hr. destruct a as [|c a]; [congruence|].
  simpl in Hp. apply andb_true_iff in Hp as [Hc Hp].
  simpl. rewrite Hc. apply greedy_star_at; assumption.
Qed.

Lemma lazy_star_sound p : forall s k r,
  lazy_star p s k = Some r ->
  exists a s', s = a ++ s' /\ forallb p a = true /\ k s' = Some r.
Proof.
  induction s as [|c s IH]; intros k r H; simpl in H.
  - destruct (k []) eqn:E; [|discriminate].
    exists [], []. inversion H; subst. auto.
  - destruct (k (c :: s)) eqn:E.
    + exists [], (c :: s). inversion H; subst. auto.
    + destruct (p c) eqn:Hc; [|discriminate].
      destruct (IH k r H) as (a & s' & -> & Hp & Hk).
      exists (c :: a), s'. simpl. rewrite Hc, Hp. auto.
Qed.

Lemma greedy_star_sound p : forall s k r,
  greedy_star p s k = Some r ->
  exists a s', s = a ++ s' /\ forallb p a = true /\ k s' = Some r.
Proof.
  induction s as [|c s IH]; intros k r H; simpl in H.
  - exists [], []. auto.
  - destruct (p c) eqn:Hc.
    + destruct (greedy_star p s k) eqn:E.
      * inversion H; subst r0.
        destruct (IH k r E) as (a & s' & -> & Hp & Hk).
        exists (c :: a), s'. simpl. rewrite Hc, Hp. auto.
      * exists [], (c :: s). auto.
    + exists [], (c :: s). auto.
Qed.

Lemma greedy_plus_sound p s k r :
  greedy_plus p s k = Some r ->
  exists a s', s = a ++ s' /\ a <> [] /\ forallb p a = true /\ k s' = Some r.
Proof.
  destruct s as [|c s]; simpl; [discriminate|].
  destruct (p c) eqn:Hc; [|discriminate]. intros H.
  destruct (greedy_star_sound _ _ _ _ H) as (a & s' & -> & Hp & Hk).
  exists (c :: a), s'. simpl. rewrite Hc, Hp.
  repeat split; auto. discriminate.
Qed.

Lemma run_sound r : forall s caps (k : str -> captures -> option R) res,
  run r s caps k = Some res ->
  exists a s' caps', s = a ++ s' /\ denotes r a /\ k s' caps' = Some res.
Proof.
  induction r as [l|p|p|i r IH|r1 IH1 r2 IH2]; intros s caps k res H;
    simpl in H.
  - destruct (strip_prefix l s) as [s'|] eqn:E; [|discriminate].
    apply strip_prefix_Some in E. exists l, s', caps. simpl. auto.
  - apply lazy_star_sound in H as (a & s' & -> & Hp & Hk).
    exists a, s', caps. simpl. auto.
  - apply greedy_plus_sound in H as (a & s' & -> & Hne & Hp & Hk).
    exists a, s', caps. simpl. auto.
  - apply IH in H as (a & s' & caps' & -> & Hd & Hk).
    exists a, s'. eexists. simpl. eauto.
  - apply IH1 in H as (a1 & s1 & caps1 & -> & Hd1 & Hk).
    apply IH2 in Hk as (a2 & s2 & caps2 & -> & Hd2 & Hk).
    exists (a1 ++ a2), s2, caps2. rewrite <- app_assoc. simpl.
    split; [reflexivity|]. split; [|exact Hk]. exists a1, a2. auto.
Qed.
End Engine.

Lemma length_app_sub (a s : str) : List.length (a ++ s) - List.length s = List.length a.
Proof. rewrite length_app. lia. Qed.

Lemma firstn_consumed (a s : str) :
  firstn (List.length (a ++ s) - List.length s) (a ++ s) = a.
Proof.
  rewrite length_app_sub. rewrite firstn_app, Nat.sub_diag. simpl.
  rewrite firstn_all, app_nil_r. reflexivity.
Qed.

Lemma match_at_sound r s len caps :
  match_at r s = Some (len, caps) ->
  exists a s', s = a ++ s' /\ denotes r a /\ len = List.length a.
Proof.
  unfold match_at. intros H.
  apply run_sound in H as (a & s' & caps' & -> & Hd & Hk).
  exists a, s'. inversion Hk. rewrite length_app_sub. auto.
Qed.

(** ** Character classes *)

Lemma in_range_points c r : in_range c r = true -> In c (points r).
Proof.
  unfold in_range, points. intros H. apply andb_true_iff in H as [Hlo Hhi].
  apply N.leb_le in Hlo, Hhi. apply in_map_iff. exists (N.to_nat c).
  split; [apply N2Nat.id|]. apply in_seq. lia.
Qed.

(** A property checked on every point of the ranges holds of the class. *)
Lemma in_ranges_forall (P : char -> bool) rs :
  forallb (fun r => forallb P (points r)) rs = true ->
  forall c, in_ranges rs c = true -> P c = true.
Proof.
  intros Hall c Hc. unfold in_ranges in Hc.
  apply existsb_exists in Hc as (r & Hr & Hin).
  rewrite forallb_forall in Hall. specialize (Hall r Hr).
  rewrite forallb_forall in Hall. apply Hall, in_range_points, Hin.
Qed.

Lemma is_char_eq a c : is_char a c = true -> c = N_of_ascii a.
Proof. unfold is_char. intros H. apply N.eqb_eq in H. congruence. Qed.

Lemma digit_dot c : digit c = true -> dot c = true.
Proof. apply (in_ranges_forall dot). vm_compute. reflexivity. Qed.

Lemma digit_not_space c : digit c = true -> space c = false.
Proof.
  intros H. apply negb_true_iff. revert c H.
  apply (in_ranges_forall (fun c => negb (space c))). vm_compute.
  reflexivity.
Qed.

Lemma space_not_value c : space c = true -> value_char c = false.
Proof.
  intros H. apply negb_true_iff. revert c H.
  apply (in_ranges_forall (fun c => negb (value_char c))). vm_compute.
  reflexivity.
Qed.

Lemma value_char_dot c : value_char c = true -> dot c = true.
Proof.
  unfold value_char. intros H.
  apply orb_true_iff in H as [H|H]; [|apply is_char_eq in H; now subst c].
  apply orb_true_iff in H as [H|H]; [|apply is_char_eq in H; now subst c].
  apply orb_true_iff in H as [H|H]; [|apply is_char_eq in H; now subst c].
  apply orb_true_iff in H as [H|H]; [|apply is_char_eq in H; now subst c].
  apply digit_dot. exact H.
Qed.

Lemma digit_not_dq c : digit c = true -> N.eqb c dq = false.
Proof.
  intros H. apply negb_true_iff. revert c H.
  apply (in_ranges_forall (fun c => negb (N.eqb c dq))). vm_compute.
  reflexivity.
Qed.

Lemma name_char_dot c : name_char c = true -> dot c = true.
Proof. apply (in_ranges_forall dot). vm_compute. reflexivity. Qed.

Lemma name_char_not_space c : name_char c = true -> space c = false.
Proof.
  intros H. apply negb_true_iff. revert c H.
  apply (in_ranges_forall (fun c => negb (space c))). vm_compute.
  reflexivity.
Qed.

Lemma name_char_not_brace c :
  name_char c = true -> negb (is_char "{" c) = true.
Proof.
  apply (in_ranges_forall (fun c => negb (is_char "{" c))). vm_compute.
  reflexivity.
Qed.

Lemma forallb_impl (p q : char -> bool) (s : str) :
  (forall c, p c = true -> q c = true) ->
  forallb p s = true -> forallb q s = true.
Proof.
  intros Hpq. induction s as [|c s IH]; simpl; [reflexivity|].
  intros H. apply andb_true_iff in H as [Hc Hs].
  rewrite (Hpq c Hc), (IH Hs). reflexivity.
Qed.

(** ** The pattern on a sample line *)

Lemma strip_prefix_None_app l : forall u rest,
  List.length l <= List.length u ->
  strip_prefix l u = None -> strip_prefix l (u ++ rest) = None.
Proof.
  induction l as [|c l IH]; intros u rest Hlen H; simpl in *.
  - discriminate.
  - destruct u as [|d u]; simpl in *; [lia|].
    destruct (N.eqb c d); [|reflexivity].
    apply IH; [lia | exact H].
Qed.

Lemma bdb_label_free_cons c p :
  bdb_label_free (c :: p) = true ->
  strip_prefix bdb_key ((c :: p) ++ bdb_key) = None /\
  bdb_label_free p = true.
Proof.
  change (bdb_label_free (c :: p))
    with (match strip_prefix bdb_key ((c :: p) ++ bdb_key) with
          | Some _ => false
          | None => bdb_label_free p
          end).
  destruct (strip_prefix bdb_key ((c :: p) ++ bdb_key));
    [discriminate | auto].
Qed.

Lemma bdb_label_free_suffix a1 : forall a2 rest,
  bdb_label_free (a1 ++ a2) = true -> a2 <> [] ->
  strip_prefix bdb_key (a2 ++ bdb_key ++ rest) = None.
Proof.
  induction a1 as [|c a1 IH]; intros a2 rest H Hne.
  - destruct a2 as [|d a2]; [congruence|].
    apply bdb_label_free_cons in H as [E _].
    rewrite app_assoc. apply strip_prefix_None_app; [|exact E].
    rewrite length_app. simpl. lia.
  - apply (bdb_label_free_cons c (a1 ++ a2)) in H as [_ H].
    apply IH; assumption.
Qed.

Lemma label_tail_no_brace a1 c a2 :
  label_tail (a1 ++ c :: a2) = true -> N.eqb (N_of_ascii "}") c = false.
Proof.
  unfold label_tail. rewrite forallb_app. simpl.
  intros H. apply andb_true_iff in H as [_ H].
  apply andb_true_iff in H as [H _].
  apply andb_true_iff in H as [_ H].
  apply negb_true_iff in H. exact H.
Qed.

Lemma label_tail_text s : label_tail s = true -> label_text s = true.
Proof.
  apply forallb_impl. intros c H. apply andb_true_iff in H as [H _]. exact H.
Qed.

Lemma stops_space_value V rest :
  V <> [] -> forallb value_char V = true -> stops space (V ++ rest) = true.
Proof.
  destruct V as [|c V]; [congruence|]. simpl. intros _ H.
  apply andb_true_iff in H as [Hc _].
  destruct (space c) eqn:E; [|reflexivity].
  apply space_not_value in E. congruence.
Qed.

Section Line.
Variable R : Type.
Variables name pre X post ws V after : str.
Hypothesis Hpre : label_text pre = true.
Hypothesis Hfree : bdb_label_free pre = true.
Hypothesis HX : X <> [].
Hypothesis HXd : forallb digit X = true.
Hypothesis Hpost : label_tail post = true.
Hypothesis Hws : ws <> [].
Hypothesis Hwss : forallb space ws = true.
Hypothesis HV : V <> [].
Hypothesis HVv : forallb value_char V = true.
Hypothesis Hafter : stops value_char after = true.

Lemma run_pattern_line (k : str -> captures -> option R) r :
  k after [(2%nat, V); (1%nat, X)] = Some r ->
  run (pattern name) (metric_line name pre X post ws V ++ after) [] k
  = Some r.
Proof.
  intros Hk. unfold pattern, metric_line. cbn [seq].
  repeat rewrite <- app_assoc. cbn [run].
  rewrite !strip_prefix_app.
  apply lazy_star_at; [exact Hpre | |].
  { intros a1 a2 E Hne. rewrite bdb_label_free_suffix with (a1 := a1);
      [reflexivity | rewrite <- E; exact Hfree | exact Hne]. }
  rewrite strip_prefix_app.
  apply greedy_plus_at; [exact HX | exact HXd | reflexivity |].
  rewrite firstn_consumed, strip_prefix_app.
  apply lazy_star_at; [apply label_tail_text; exact Hpost | |].
  { intros a1 a2 E Hne. destruct a2 as [|c a2]; [congruence|].
    cbn [app lit list_ascii_of_string map].
    rewrite strip_prefix_head; [reflexivity|].
    apply label_tail_no_brace with (a1 := a1) (a2 := a2).
    rewrite <- E. exact Hpost. }
  rewrite strip_prefix_app.
  apply greedy_plus_at;
    [exact Hws | exact Hwss | apply stops_space_value; assumption |].
  apply greedy_plus_at; [exact HV | exact HVv | exact Hafter |].
  rewrite firstn_consumed. exact Hk.
Qed.
End Line.

Lemma match_at_line name pre X post ws V after :
  label_text pre = true -> bdb_label_free pre = true ->
  X <> [] -> forallb digit X = true ->
  label_tail post = true ->
  ws <> [] -> forallb space ws = true ->
  V <> [] -> forallb value_char V = true ->
  stops value_char after = true ->
  match_at (pattern name) (metric_line name pre X post ws V ++ after)
  = Some (List.length (metric_line name pre X post ws V),
          [(2%nat, V); (1%nat, X)]).
Proof.
  intros. unfold match_at. apply run_pattern_line; try assumption.
  rewrite length_app_sub. reflexivity.
Qed.

(** ** The shape of every match of the pattern *)

Lemma pattern_shape name a :
  denotes (pattern name) a ->
  exists A D B W Vv,
    a = name ++ lit "{" ++ A ++ bdb_key ++ D ++ (dq :: lit ",") ++ B
             ++ lit "}" ++ W ++ Vv /\
    forallb dot A = true /\ forallb digit D = true /\
    forallb dot B = true /\
    W <> [] /\ forallb space W = true /\
    Vv <> [] /\ forallb value_char Vv = true.
Proof.
  unfold pattern. cbn [seq denotes].
  intros (a1 & r1 & -> & -> & a2 & r2 & -> & -> & A & r3 & -> & HA
          & a4 & r4 & -> & -> & D & r5 & -> & [_ HD]
          & a6 & r6 & -> & -> & B & r7 & -> & HB
          & a8 & r8 & -> & -> & W & Vv & -> & [HW HWs] & [HV HVv]).
  exists A, D, B, W, Vv. repeat split; assumption.
Qed.

Lemma match_at_pattern name s len caps :
  match_at (pattern name) s = Some (len, caps) ->
  exists a s', s = a ++ s' /\ len = List.length a /\ denotes (pattern name) a.
Proof.
  intros H. apply match_at_sound in H as (a & s' & E & Hd & Hl).
  exists a, s'. auto.
Qed.

(** A match starts with the family name and the opening brace. *)
Lemma match_at_name_brace name s len caps :
  match_at (pattern name) s = Some (len, caps) ->
  exists rest, s = name ++ lit "{" ++ rest.
Proof.
  intros H. apply match_at_pattern in H as (a & s' & -> & _ & Hd).
  apply pattern_shape in Hd as (A & D & B & W & Vv & -> & _).
  eexists. repeat rewrite <- app_assoc. reflexivity.
Qed.

(** *** A match does not run from one line into a sample line *)

Lemma forallb_dot_no_nl u v : forallb dot (u ++ nl :: v) = true -> False.
Proof.
  rewrite forallb_app. simpl. intros H.
  apply andb_true_iff in H as [_ H]. discriminate.
Qed.

Lemma forallb_cons_inv (p : char -> bool) c s :
  forallb p (c :: s) = true -> p c = true /\ forallb p s = true.
Proof. simpl. intros H. apply andb_true_iff in H. exact H. Qed.

(** [nl] followed by [c0] inside [W ++ Vv] puts [c0] in [W] or in [Vv]. *)
Lemma nl_in_space_value W : forall Vv u c0 v,
  forallb space W = true -> forallb value_char Vv = true ->
  W ++ Vv = u ++ nl :: c0 :: v ->
  space c0 = true \/ value_char c0 = true.
Proof.
  induction W as [|w W IH]; intros Vv u c0 v HW HV E.
  - simpl in E. subst Vv. rewrite forallb_app in HV.
    apply andb_true_iff in HV as [_ HV].
    apply forallb_cons_inv in HV as [HV _]. discriminate.
  - apply forallb_cons_inv in HW as [Hw HW].
    destruct u as [|x u]; simpl in E.
    + injection E as -> E.
      destruct W as [|w' W]; simpl in E.
      * subst Vv. apply forallb_cons_inv in HV as [HV _]. auto.
      * injection E as -> E. apply forallb_cons_inv in HW as [HW _]. auto.
    + injection E as -> E. eapply IH; eassumption.
Qed.

Lemma dot_prefix_of_nl S1 : forall T u v,
  forallb dot S1 = true -> S1 ++ T = u ++ nl :: v ->
  exists u', u = S1 ++ u' /\ T = u' ++ nl :: v.
Proof.
  induction S1 as [|c S1 IH]; intros T u v H E.
  - exists u. auto.
  - apply forallb_cons_inv in H as [Hc H].
    destruct u as [|x u]; simpl in E.
    + injection E as -> _. discriminate.
    + injection E as -> E. destruct (IH T u v H E) as (u' & -> & ->).
      exists u'. auto.
Qed.

Lemma pattern_no_nl_pair name a u c0 v :
  plain_name name = true ->
  denotes (pattern name) a ->
  a = u ++ nl :: c0 :: v ->
  space c0 = true \/ value_char c0 = true.
Proof.
  intros Hn Hd E.
  apply pattern_shape in Hd
    as (A & D & B & W & Vv & -> & HA & HD & HB & _ & HW & _ & HV).
  assert (HS : forallb dot (name ++ lit "{" ++ A ++ bdb_key ++ D
                               ++ (dq :: lit ",") ++ B ++ lit "}") = true).
  { repeat rewrite forallb_app.
    rewrite (forallb_impl _ _ name name_char_dot Hn), HA, HB.
    rewrite (forallb_impl _ _ D digit_dot HD). reflexivity. }
  replace (name ++ lit "{" ++ A ++ bdb_key ++ D ++ (dq :: lit ",") ++ B
                ++ lit "}" ++ W ++ Vv)
    with ((name ++ lit "{" ++ A ++ bdb_key ++ D ++ (dq :: lit ",") ++ B
                ++ lit "}") ++ W ++ Vv) in E
    by (repeat rewrite <- app_assoc; reflexivity).
  destruct (dot_prefix_of_nl _ _ _ _ HS E) as (u' & _ & E').
  eapply nl_in_space_value; eassumption.
Qed.

Lemma match_at_stays_in_line name b c0 rest len caps :
  plain_name name = true ->
  space c0 = false -> value_char c0 = false ->
  match_at (pattern name) (b ++ nl :: c0 :: rest) = Some (len, caps) ->
  len <= List.length (b ++ [nl]).
Proof.
  intros Hn Hs Hv H.
  apply match_at_pattern in H as (a & s' & E & -> & Hd).
  rewrite length_app. simpl.
  destruct (Nat.le_gt_cases (List.length a) (List.length b + 1))
    as [Hle|Hgt]; [exact Hle|exfalso].
  symmetry in E. apply app_eq_app in E as [l [[Ea El]|[Eb El]]].
  - destruct l as [|x [|y l]]; simpl in El.
    + subst a. rewrite app_nil_r in Hgt. lia.
    + subst a. rewrite length_app in Hgt. simpl in Hgt. lia.
    + injection El as <- <- El.
      destruct (pattern_no_nl_pair name a b c0 l Hn Hd Ea); congruence.
  - subst b. rewrite length_app in Hgt. lia.
Qed.

(** ** The scan of [finditer] *)

Section Scan.
Variable r : regex.

Lemma finditer_In : forall s skip pos i caps,
  In (i, caps) (finditer r s skip pos) ->
  pos <= i /\ exists len, match_at r (skipn (i - pos) s) = Some (len, caps).
Proof.
  induction s as [|c s IH]; intros skip pos i caps H.
  - simpl in H. destruct skip; [|contradiction].
    destruct (match_at r []) as [[len caps']|] eqn:E; [|contradiction].
    destruct H as [H|[]]. injection H as <- <-.
    split; [lia|]. exists len. rewrite Nat.sub_diag. exact E.
  - assert (Hrec : forall n, In (i, caps) (finditer r s n (S pos)) ->
              pos <= i /\
              exists len, match_at r (skipn (i - pos) (c :: s))
                          = Some (len, caps)).
    { intros n Hn. apply IH in Hn as [Hle [len Hm]].
      split; [lia|]. exists len.
      replace (i - pos) with (S (i - S pos)) by lia. exact Hm. }
    simpl in H. destruct skip as [|n]; [|eapply Hrec; eassumption].
    destruct (match_at r (c :: s)) as [[len caps']|] eqn:E;
      [|eapply Hrec; eassumption].
    destruct H as [H|H]; [|eapply Hrec; eassumption].
    injection H as <- <-. split; [lia|]. exists len.
    rewrite Nat.sub_diag. exact E.
Qed.

(** The groups found do not depend on the offset the scan starts from. *)
Lemma finditer_pos : forall s skip pos pos',
  map snd (finditer r s skip pos) = map snd (finditer r s skip pos').
Proof.
  induction s as [|c s IH]; intros skip pos pos'; simpl.
  - destruct skip; [|reflexivity].
    destruct (match_at r []) as [[len caps]|]; reflexivity.
  - destruct skip as [|n]; [|apply IH].
    destruct (match_at r (c :: s)) as [[len caps]|]; simpl;
      [f_equal|]; apply IH.
Qed.

(** A prefix whose matches all end inside it is scanned on its own. *)
Lemma finditer_prefix rest : forall before skip pos,
  skip <= List.length before ->
  (forall b1 b2 len caps, before = b1 ++ b2 -> b2 <> [] ->
     match_at r (b2 ++ rest) = Some (len, caps) -> len <= List.length b2) ->
  exists ms,
    finditer r (before ++ rest) skip pos
    = ms ++ finditer r rest 0 (pos + List.length before).
Proof.
  induction before as [|c before IH]; intros skip pos Hskip Hin.
  - simpl in Hskip. assert (skip = 0) as -> by lia.
    exists []. simpl. rewrite Nat.add_0_r. reflexivity.
  - assert (Hin' : forall b1 b2 len caps, before = b1 ++ b2 -> b2 <> [] ->
              match_at r (b2 ++ rest) = Some (len, caps) ->
              len <= List.length b2).
    { intros b1 b2 len caps E. apply (Hin (c :: b1)). rewrite E.
      reflexivity. }
    assert (Hpos : S pos + List.length before
                   = pos + List.length (c :: before))
      by (simpl; lia).
    simpl in Hskip. cbn [app finditer].
    destruct skip as [|n].
    + destruct (match_at r (c :: before ++ rest)) as [[len caps]|] eqn:E.
      * assert (Hlen : len <= List.length (c :: before)).
        { apply (Hin [] (c :: before) len caps);
            [reflexivity | discriminate | exact E]. }
        simpl in Hlen.
        destruct (IH (pred len) (S pos)) as [ms Hms]; [lia | exact Hin'|].
        exists ((pos, caps) :: ms). rewrite Hms, Hpos. reflexivity.
      * destruct (IH 0 (S pos)) as [ms Hms]; [lia | exact Hin'|].
        exists ms. rewrite Hms, Hpos. reflexivity.
    + destruct (IH n (S pos)) as [ms Hms]; [lia | exact Hin'|].
      exists ms. rewrite Hms, Hpos. reflexivity.
Qed.

(** A prefix inside which no match starts contributes nothing. *)
Lemma finditer_unmatched rest : forall before pos,
  (forall b1 b2, before = b1 ++ b2 -> b2 <> [] ->
     match_at r (b2 ++ rest) = None) ->
  finditer r (before ++ rest) 0 pos
  = finditer r rest 0 (pos + List.length before).
Proof.
  induction before as [|c before IH]; intros pos Hnone.
  - simpl. rewrite Nat.add_0_r. reflexivity.
  - cbn [app finditer].
    assert (E : match_at r ((c :: before) ++ rest) = None)
      by (apply (Hnone [] (c :: before)); [reflexivity | discriminate]).
    simpl in E. rewrite E. rewrite IH.
    + f_equal. simpl. lia.
    + intros b1 b2 Eb. apply (Hnone (c :: b1)). rewrite Eb. reflexivity.
Qed.

Lemma finditer_hit c s len caps pos :
  match_at r (c :: s) = Some (len, caps) ->
  finditer r (c :: s) 0 pos
  = (pos, caps) :: finditer r s (pred len) (S pos).
Proof. intros H. simpl. rewrite H. reflexivity. Qed.

(** A scan that has the whole rest to skip finds nothing more. *)
Lemma finditer_skip_all : forall s pos,
  match_at r [] = None -> finditer r s (List.length s) pos = [].
Proof.
  induction s as [|c s IH]; intros pos H; simpl.
  - rewrite H. reflexivity.
  - apply IH. exact H.
Qed.

Lemma findall_pos s pos :
  findall r s
  = map (fun m => (group 1 (snd m), group 2 (snd m))) (finditer r s 0 pos).
Proof.
  unfold findall.
  rewrite <- (map_map snd (fun c => (group 1 c, group 2 c))).
  rewrite (finditer_pos s 0 0 pos), map_map. reflexivity.
Qed.
End Scan.

(** ** The dict comprehension *)

Section DictLemmas.
Variable V : Type.
Implicit Types (d : dict V) (k : str).

Lemma dict_get_set_same k v d : dict_get k (dict_set k v d) = Some v.
Proof.
  induction d as [|[k' v'] d IH]; simpl.
  - rewrite str_eqb_refl. reflexivity.
  - destruct (str_eqb k k') eqn:E; simpl; rewrite E; [reflexivity|exact IH].
Qed.

Lemma dict_get_set_other k k' v d :
  k <> k' -> dict_get k (dict_set k' v d) = dict_get k d.
Proof.
  intros Hne. induction d as [|[k2 v2] d IH]; simpl.
  - apply str_eqb_neq in Hne. rewrite Hne. reflexivity.
  - destruct (str_eqb k' k2) eqn:E; simpl.
    + apply str_eqb_eq in E. subst k2.
      apply str_eqb_neq in Hne. rewrite Hne. reflexivity.
    + destruct (str_eqb k k2); [reflexivity|exact IH].
Qed.

Lemma keys_dict_set k v d :
  forall x, In x (keys (dict_set k v d)) <-> x = k \/ In x (keys d).
Proof.
  intros x. induction d as [|[k' v'] d IH]; simpl.
  - intuition.
  - destruct (str_eqb k k') eqn:E; simpl.
    + apply str_eqb_eq in E. subst k'. intuition.
    + rewrite IH. intuition.
Qed.
End DictLemmas.

Lemma py_float_raise s e : py_float s = Raise e -> e = ValueError.
Proof.
  unfold py_float. destruct (take_sign s) as [neg r].
  destruct (span digit r) as [ip r1].
  destruct (match r1 with
            | [] => ([], r1)
            | c :: r' => if is_char "." c then span digit r' else ([], r1)
            end) as [fp r2].
  destruct (ip ++ fp); [congruence|].
  destruct (exponent r2); congruence.
Qed.

Lemma last_value_app X ms1 ms2 :
  last_value X (ms1 ++ ms2)
  = match last_value X ms2 with
    | Some v => Some v
    | None => last_value X ms1
    end.
Proof.
  induction ms1 as [|[k v] ms1 IH]; simpl.
  - destruct (last_value X ms2); reflexivity.
  - rewrite IH. destruct (last_value X ms2); reflexivity.
Qed.

Lemma last_value_absent X ms :
  ~ In X (map fst ms) -> last_value X ms = None.
Proof.
  induction ms as [|[k v] ms IH]; simpl; intros H; [reflexivity|].
  rewrite IH by tauto.
  destruct (str_eqb X k) eqn:E; [|reflexivity].
  apply str_eqb_eq in E. subst k. tauto.
Qed.

Lemma last_value_In X ms v :
  last_value X ms = Some v -> In (X, v) ms.
Proof.
  induction ms as [|[k w] ms IH]; simpl; [discriminate|].
  destruct (last_value X ms) as [v'|].
  - intros H. injection H as ->. auto.
  - destruct (str_eqb X k) eqn:E; [|discriminate].
    apply str_eqb_eq in E. subst k. intros H. injection H as ->. auto.
Qed.

(** The table built by the comprehension maps every key to the float of the
    last value matched for it. *)
Lemma dict_comp_last X : forall ms d t,
  dict_comp ms d = Ok t ->
  match last_value X ms with
  | Some v => exists f, py_float v = Ok f /\ dict_get X t = Some f
  | None => dict_get X t = dict_get X d
  end.
Proof.
  induction ms as [|[k v] ms IH]; intros d t H; simpl in H.
  - injection H as <-. reflexivity.
  - destruct (py_float v) as [f|e] eqn:Ef; simpl in H; [|discriminate].
    specialize (IH _ _ H). simpl.
    destruct (last_value X ms) as [v'|]; [exact IH|].
    destruct (str_eqb X k) eqn:E.
    + apply str_eqb_eq in E. subst k. exists f. split; [exact Ef|].
      rewrite IH. apply dict_get_set_same.
    + rewrite IH. apply dict_get_set_other. apply str_eqb_neq. exact E.
Qed.

Lemma dict_comp_raise : forall ms d e,
  dict_comp ms d = Raise e ->
  e = ValueError /\
  exists X v, In (X, v) ms /\ py_float v = Raise ValueError.
Proof.
  induction ms as [|[k v] ms IH]; intros d e H; simpl in H.
  - discriminate.
  - destruct (py_float v) as [f|e'] eqn:Ef; simpl in H.
    + destruct (IH _ _ H) as [-> (X & w & Hin & Hw)].
      split; [reflexivity|]. exists X, w. simpl. auto.
    + injection H as ->. pose proof (py_float_raise _ _ Ef) as ->.
      split; [reflexivity|]. exists k, v. simpl. auto.
Qed.

Lemma dict_comp_ok : forall ms d,
  (forall X v, In (X, v) ms -> exists f, py_float v = Ok f) ->
  exists t, dict_comp ms d = Ok t.
Proof.
  induction ms as [|[k v] ms IH]; intros d H; simpl.
  - exists d. reflexivity.
  - destruct (H k v) as [f Hf]; [simpl; auto|]. rewrite Hf. simpl.
    apply IH. intros X w Hin. apply (H X w). simpl. auto.
Qed.

Lemma dict_comp_keys : forall ms d t,
  dict_comp ms d = Ok t ->
  forall x, In x (keys t) <-> In x (map fst ms) \/ In x (keys d).
Proof.
  induction ms as [|[k v] ms IH]; intros d t H x; simpl in H.
  - injection H as <-. simpl. tauto.
  - destruct (py_float v) as [f|e]; simpl in H; [|discriminate].
    rewrite (IH _ _ H x), keys_dict_set. simpl. intuition.
Qed.

(** ** Properties of [parse_metrics] *)

Lemma metric_name_ok_inv name :
  metric_name_ok name = true ->
  plain_name name = true /\
  exists c0 name', name = c0 :: name' /\
                   space c0 = false /\ value_char c0 = false.
Proof.
  destruct name as [|c0 name']; simpl; [discriminate|]. intros H.
  apply andb_true_iff in H as [Hv Hp]. apply negb_true_iff in Hv.
  split; [exact Hp|]. exists c0, name'. repeat split; [|exact Hv].
  simpl in Hp. apply andb_true_iff in Hp as [Hc _].
  apply name_char_not_space. exact Hc.
Qed.

Lemma at_line_start_inv before :
  at_line_start before = true ->
  before = [] \/ exists b, before = b ++ [nl].
Proof.
  unfold at_line_start. destruct (rev before) as [|c l] eqn:E.
  - left. apply (f_equal (@rev char)) in E. rewrite rev_involutive in E.
    exact E.
  - intros H. apply N.eqb_eq in H. subst c. right. exists (rev l).
    apply (f_equal (@rev char)) in E. rewrite rev_involutive in E.
    exact E.
Qed.

Lemma suffix_keeps_last (b b1 b2 : str) (x : char) :
  b ++ [x] = b1 ++ b2 -> b2 <> [] -> exists b2', b2 = b2' ++ [x].
Proof.
  intros E Hne. destruct (exists_last Hne) as (b2' & y & ->).
  rewrite app_assoc in E. apply app_inj_tail in E as [_ ->].
  exists b2'. reflexivity.
Qed.

Lemma findall_line name pre X post ws V before after :
  metric_name_ok name = true ->
  label_text pre = true -> bdb_label_free pre = true ->
  X <> [] -> forallb digit X = true ->
  label_tail post = true ->
  ws <> [] -> forallb space ws = true ->
  V <> [] -> forallb value_char V = true ->
  at_line_start before = true -> stops value_char after = true ->
  exists ms1 ms2,
    findall (pattern name)
            (before ++ metric_line name pre X post ws V ++ after)
    = ms1 ++ (X, V) :: ms2.
Proof.
  intros Hname Hpre Hfree HX HXd Hpost Hws Hwss HV HVv Hbefore Hafter.
  destruct (metric_name_ok_inv _ Hname)
    as (Hplain & c0 & name' & En & Hc0s & Hc0v).
  pose proof (match_at_line name pre X post ws V after Hpre Hfree HX HXd
                            Hpost Hws Hwss HV HVv Hafter) as Hm.
  set (line := metric_line name pre X post ws V) in *.
  assert (El : exists tl, line ++ after = c0 :: tl).
  { unfold line, metric_line. rewrite En. simpl. eexists. reflexivity. }
  destruct El as [tl El].
  destruct (finditer_prefix (pattern name) (line ++ after) before 0 0)
    as [ms Hms].
  - lia.
  - intros b1 b2 len caps E Hne Hmatch.
    destruct (at_line_start_inv _ Hbefore) as [->|[b ->]].
    + destruct b1; [simpl in E; congruence | discriminate].
    + destruct (suffix_keeps_last _ _ _ _ E Hne) as [b2' ->].
      rewrite El, <- app_assoc in Hmatch. simpl in Hmatch.
      eapply match_at_stays_in_line; eassumption.
  - rewrite (findall_pos _ _ 0), Hms, map_app.
    rewrite El in Hm |- *. rewrite (finditer_hit _ _ _ _ _ _ Hm). simpl.
    eexists. eexists. reflexivity.
Qed.

Lemma match_at_empty name : match_at (pattern name) [] = None.
Proof. destruct name; reflexivity. Qed.

(** A text that is one sample line gives the table of that line. *)
Lemma parse_metrics_single_line name pre X post ws V f :
  label_text pre = true -> bdb_label_free pre = true ->
  X <> [] -> forallb digit X = true ->
  label_tail post = true ->
  ws <> [] -> forallb space ws = true ->
  V <> [] -> forallb value_char V = true ->
  py_float V = Ok f ->
  parse_metrics (metric_line name pre X post ws V) name = Ok [(X, f)].
Proof.
  intros Hpre Hfree HX HXd Hpost Hws Hwss HV HVv Hf.
  pose proof (match_at_line name pre X post ws V [] Hpre Hfree HX HXd
                            Hpost Hws Hwss HV HVv eq_refl) as Hm.
  rewrite app_nil_r in Hm.
  unfold parse_metrics, findall.
  destruct (metric_line name pre X post ws V) as [|c tl] eqn:El.
  - apply (f_equal (@List.length char)) in El. unfold metric_line in El.
    rewrite !length_app in El. simpl in El. lia.
  - rewrite (finditer_hit _ _ _ _ _ _ Hm). simpl.
    rewrite finditer_skip_all by apply match_at_empty.
    simpl. rewrite Hf. reflexivity.
Qed.

(** C1, as amended: a sample line [name{pre bdb='X',post} V] whose [bdb]
    label is followed by a comma is matched wherever the label stands in
    the brace list, with the groups [X] and [V]; and when the parse
    returns, it maps [X] to [float(V)] unless a later match overwrites
    it.  The line starts a line of the text, [pre] holds no earlier
    [bdb='], [post] no closing brace, and the name starts with a character
    that cannot continue a value. *)
Theorem parse_metrics_labelled_line
  (name pre X post ws V before after : str) (f : float) :
  metric_name_ok name = true ->
  label_text pre = true -> bdb_label_free pre = true ->
  X <> [] -> forallb digit X = true ->
  label_tail post = true ->
  ws <> [] -> forallb space ws = true ->
  V <> [] -> forallb value_char V = true ->
  at_line_start before = true -> stops value_char after = true ->
  py_float V = Ok f ->
  exists ms1 ms2,
    findall (pattern name)
            (before ++ metric_line name pre X post ws V ++ after)
    = ms1 ++ (X, V) :: ms2 /\
    forall t,
      parse_metrics (before ++ metric_line name pre X post ws V ++ after)
                    name = Ok t ->
      ~ In X (map fst ms2) -> dict_get X t = Some f.
Proof.
  intros Hname Hpre Hfree HX HXd Hpost Hws Hwss HV HVv Hbefore Hafter Hf.
  destruct (findall_line name pre X post ws V before after)
    as (ms1 & ms2 & E); try assumption.
  exists ms1, ms2. split; [exact E|].
  intros t Ht Hlast. unfold parse_metrics in Ht. rewrite E in Ht.
  pose proof (dict_comp_last X _ _ _ Ht) as Hl.
  rewrite last_value_app in Hl. simpl in Hl.
  rewrite (last_value_absent X ms2 Hlast), str_eqb_refl in Hl.
  destruct Hl as (f' & Hf' & Hget). congruence.
Qed.

Lemma parse_metrics_labelled_line_witness :
  exists ms1 ms2,
    findall (pattern (lit "bdb_used_memory")) three_line_text
    = ms1 ++ (lit "12", lit "1.5e3") :: ms2 /\
    forall t,
      parse_metrics three_line_text (lit "bdb_used_memory") = Ok t ->
      ~ In (lit "12") (map fst ms2) ->
      dict_get (lit "12") t = Some (Z2SF 1500).
Proof.
  apply (parse_metrics_labelled_line
           (lit "bdb_used_memory")
           (label (lit "cluster") (lit "c") ++ lit ",") (lit "12")
           (label (lit "node") (lit "3")) (lit " ") (lit "1.5e3")
           (lit "# TYPE bdb_used_memory gauge" ++ [nl])
           (nl :: sample (lit "bdb_memory_limit")
                         (label (lit "bdb") (lit "12") ++ lit ",") (lit "9"))
           (Z2SF 1500));
    solve [reflexivity | discriminate].
Defined.

(** C1, as stated, fails: in [m{a='x',bdb='1'} 5] the [bdb] label is the
    last one, no comma follows it, and the id is not in the result. *)
Lemma parse_metrics_bdb_last_unmatched :
  parse_metrics bdb_last_text (lit "m") = Ok [] /\
  ~ exists t, parse_metrics bdb_last_text (lit "m") = Ok t /\
              dict_get (lit "1") t = Some (Z2SF 5).
Proof.
  split; [vm_compute; reflexivity|].
  intros (t & Ht & Hget). vm_compute in Ht. injection Ht as <-.
  discriminate.
Qed.

(** A [bdb] label that comes last is not what the pattern looks for: in
    [m{xbdb='7',bdb='1'} 5] the match is on [bdb='7',], the end of another
    label, and the sample is filed under ['7']. *)
Lemma parse_metrics_bdb_inside_key :
  parse_metrics bdb_inside_key_text (lit "m") = Ok [(lit "7", Z2SF 5)].
Proof. vm_compute. reflexivity. Qed.

Lemma plain_name_brace_free name :
  plain_name name = true -> brace_free name = true.
Proof. apply forallb_impl. exact name_char_not_brace. Qed.

Lemma brace_free_before_brace u : forall v name w,
  brace_free u = true ->
  List.length name < List.length u ->
  u ++ v <> name ++ lit "{" ++ w.
Proof.
  intros v name w Hu Hlen E.
  apply app_eq_app in E as [l [[Eu El]|[En El]]].
  - destruct l as [|x l].
    + rewrite app_nil_r in Eu. subst u. lia.
    + simpl in El. injection El as <- _. subst u.
      unfold brace_free in Hu. rewrite forallb_app in Hu.
      apply andb_true_iff in Hu as [_ Hu]. discriminate.
  - subst name. rewrite length_app in Hlen. lia.
Qed.

Lemma match_at_inside_name name p rest :
  brace_free p = true -> brace_free name = true -> p <> [] ->
  match_at (pattern name) (p ++ name ++ lit "{" ++ rest) = None.
Proof.
  intros Hp Hn Hne.
  destruct (match_at (pattern name) (p ++ name ++ lit "{" ++ rest))
    as [[len caps]|] eqn:E; [exfalso|reflexivity].
  apply match_at_name_brace in E as [w E].
  rewrite app_assoc in E. revert E. apply brace_free_before_brace.
  - unfold brace_free in *. rewrite forallb_app, Hp, Hn. reflexivity.
  - rewrite length_app. destruct p; [congruence | simpl; lia].
Qed.

Lemma metric_line_prefixed p name pre X post ws V :
  metric_line (p ++ name) pre X post ws V
  = p ++ metric_line name pre X post ws V.
Proof. unfold metric_line. rewrite <- app_assoc. reflexivity. Qed.

(** A sample line whose metric name ends with the family name is matched
    at the place where the family name starts. *)
Lemma findall_prefixed_line p name pre X post ws V before after :
  plain_name name = true -> metric_name_ok (p ++ name) = true ->
  label_text pre = true -> bdb_label_free pre = true ->
  X <> [] -> forallb digit X = true ->
  label_tail post = true ->
  ws <> [] -> forallb space ws = true ->
  V <> [] -> forallb value_char V = true ->
  at_line_start before = true -> stops value_char after = true ->
  exists ms1 ms2,
    findall (pattern name)
            (before ++ metric_line (p ++ name) pre X post ws V ++ after)
    = ms1 ++ (X, V) :: ms2.
Proof.
  intros Hname Hpname Hpre Hfree HX HXd Hpost Hws Hwss HV HVv Hbefore Hafter.
  destruct (metric_name_ok_inv _ Hpname)
    as (Hplain & c0 & name' & En & Hc0s & Hc0v).
  pose proof (match_at_line name pre X post ws V after Hpre Hfree HX HXd
                            Hpost Hws Hwss HV HVv Hafter) as Hm.
  rewrite metric_line_prefixed.
  set (line := metric_line name pre X post ws V) in *.
  assert (Hp : brace_free p = true).
  { apply plain_name_brace_free in Hplain. unfold brace_free in *.
    rewrite forallb_app in Hplain.
    apply andb_true_iff in Hplain as [Hplain _]. exact Hplain. }
  assert (Inside : forall l b2, p = l ++ b2 -> b2 <> [] ->
            match_at (pattern name) (b2 ++ line ++ after) = None).
  { intros l b2 E Hne. unfold line, metric_line.
    repeat rewrite <- app_assoc.
    apply match_at_inside_name.
    - rewrite E in Hp. unfold brace_free in *. rewrite forallb_app in Hp.
      apply andb_true_iff in Hp as [_ Hp]. exact Hp.
    - apply plain_name_brace_free. exact Hname.
    - exact Hne. }
  assert (El : exists c tl, line ++ after = c :: tl).
  { destruct (line ++ after) as [|c tl] eqn:E.
    - apply (f_equal (@List.length char)) in E. unfold line, metric_line in E.
      rewrite !length_app in E. simpl in E. lia.
    - eauto. }
  destruct El as (c & tl & El).
  assert (Ep : exists tl', p ++ line ++ after = c0 :: tl').
  { unfold line, metric_line. 
    replace (p ++ (name ++ lit "{" ++ pre ++ bdb_key ++ X ++ (dq :: lit ",")
                   ++ post ++ lit "}" ++ ws ++ V) ++ after)
      with ((p ++ name) ++ (lit "{" ++ pre ++ bdb_key ++ X ++ (dq :: lit ",")
                   ++ post ++ lit "}" ++ ws ++ V) ++ after)
      by (repeat rewrite <- app_assoc; reflexivity).
    rewrite En. simpl. eexists. reflexivity. }
  destruct Ep as [tl' Ep].
  replace (before ++ (p ++ line) ++ after)
    with ((before ++ p) ++ line ++ after)
    by (repeat rewrite <- app_assoc; reflexivity).
  destruct (finditer_prefix (pattern name) (line ++ after) (before ++ p) 0 0)
    as [ms Hms].
  - lia.
  - intros b1 b2 len caps E Hne Hmatch.
    symmetry in E. apply app_eq_app in E as [l [[E1 E2]|[Eb E2]]].
    + rewrite (Inside l b2 E2 Hne) in Hmatch. discriminate.
    + destruct l as [|x l].
      * simpl in E2. subst b2.
        rewrite (Inside [] p eq_refl Hne) in Hmatch. discriminate.
      * destruct (at_line_start_inv _ Hbefore) as [Hb|[b Hb]].
        { rewrite Hb in Eb. destruct b1; simpl in Eb; discriminate. }
        rewrite Hb in Eb.
        assert (Hl : x :: l <> []) by discriminate.
        destruct (suffix_keeps_last b b1 (x :: l) nl Eb Hl) as [l' El'].
        rewrite E2, El' in Hmatch |- *.
        repeat rewrite <- app_assoc in Hmatch. simpl in Hmatch.
        rewrite Ep in Hmatch.
        apply (match_at_stays_in_line name l' c0 tl' len caps Hname Hc0s Hc0v)
          in Hmatch.
        rewrite !length_app in *. simpl in *. lia.
  - rewrite (findall_pos _ _ 0), Hms, map_app.
    rewrite El in Hm |- *. rewrite (finditer_hit _ _ _ _ _ _ Hm). simpl.
    eexists. eexists. reflexivity.
Qed.

(** A pair found by [findall] is filed under its id unless a later pair
    has the same id. *)
Lemma parse_metrics_of_findall text name ms1 ms2 X V f t :
  findall (pattern name) text = ms1 ++ (X, V) :: ms2 ->
  py_float V = Ok f ->
  parse_metrics text name = Ok t ->
  ~ In X (map fst ms2) -> dict_get X t = Some f.
Proof.
  intros E Hf Ht Hlast. unfold parse_metrics in Ht. rewrite E in Ht.
  pose proof (dict_comp_last X _ _ _ Ht) as Hl.
  rewrite last_value_app in Hl. simpl in Hl.
  rewrite (last_value_absent X ms2 Hlast), str_eqb_refl in Hl.
  destruct Hl as (f' & Hf' & Hget). congruence.
Qed.

(** C2, as amended: a sample is taken only at a place of the text where
    the family name is immediately followed by the opening brace; the
    pattern is not anchored on the left, so a text that starts with a
    longer metric name ending with the family name is parsed as the text
    without that prefix, and a sample line of such a longer name, on any
    line of the text, is matched from the place where the family name
    starts, with the groups [X] and [V], and filed under [X] like a line
    of the family itself. *)
Theorem parse_metrics_name_suffix
  (name text p rest pre X post ws V before after : str) (f : float) :
  plain_name name = true ->
  (forall i caps, In (i, caps) (finditer (pattern name) text 0 0) ->
                  exists tl, skipn i text = name ++ lit "{" ++ tl) /\
  (brace_free p = true ->
   parse_metrics (p ++ name ++ lit "{" ++ rest) name
   = parse_metrics (name ++ lit "{" ++ rest) name) /\
  (metric_name_ok (p ++ name) = true ->
   label_text pre = true -> bdb_label_free pre = true ->
   X <> [] -> forallb digit X = true ->
   label_tail post = true ->
   ws <> [] -> forallb space ws = true ->
   V <> [] -> forallb value_char V = true ->
   at_line_start before = true -> stops value_char after = true ->
   py_float V = Ok f ->
   exists ms1 ms2,
     findall (pattern name)
             (before ++ metric_line (p ++ name) pre X post ws V ++ after)
     = ms1 ++ (X, V) :: ms2 /\
     forall t,
       parse_metrics
         (before ++ metric_line (p ++ name) pre X post ws V ++ after) name
       = Ok t ->
       ~ In X (map fst ms2) -> dict_get X t = Some f).
Proof.
  intros Hname. split; [|split].
  - intros i caps H. apply finditer_In in H as [_ [len H]].
    rewrite Nat.sub_0_r in H. apply match_at_name_brace in H. exact H.
  - intros Hp. unfold parse_metrics. f_equal.
    rewrite (findall_pos _ (name ++ lit "{" ++ rest) (0 + List.length p)).
    unfold findall. f_equal. apply finditer_unmatched.
    intros b1 b2 E Hne. apply match_at_inside_name.
    + rewrite E in Hp. unfold brace_free in *. rewrite forallb_app in Hp.
      apply andb_true_iff in Hp as [_ Hp]. exact Hp.
    + apply plain_name_brace_free. exact Hname.
    + exact Hne.
  - intros Hpname Hpre Hfree HX HXd Hpost Hws Hwss HV HVv Hbefore Hafter Hf.
    destruct (findall_prefixed_line p name pre X post ws V before after)
      as (ms1 & ms2 & E); try assumption.
    exists ms1, ms2. split; [exact E|].
    intros t Ht Hlast.
    exact (parse_metrics_of_findall _ _ _ _ _ _ _ _ E Hf Ht Hlast).
Qed.

Lemma parse_metrics_name_suffix_witness :
  (forall i caps,
     In (i, caps)
        (finditer (pattern (lit "bdb_used_memory")) suffix_later_text 0 0)
     -> exists tl,
       skipn i suffix_later_text = lit "bdb_used_memory" ++ lit "{" ++ tl)
  /\
  parse_metrics suffix_text (lit "bdb_used_memory")
  = parse_metrics (skipn 12 suffix_text) (lit "bdb_used_memory")
  /\
  exists ms1 ms2,
    findall (pattern (lit "bdb_used_memory")) suffix_later_text
    = ms1 ++ (lit "1", lit "5") :: ms2 /\
    forall t,
      parse_metrics suffix_later_text (lit "bdb_used_memory") = Ok t ->
      ~ In (lit "1") (map fst ms2) ->
      dict_get (lit "1") t = Some (Z2SF 5).
Proof.
  destruct (parse_metrics_name_suffix
              (lit "bdb_used_memory") suffix_later_text (lit "some_prefix_")
              (label (lit "bdb") (lit "1") ++ lit ","
               ++ label (lit "cluster") (lit "c") ++ lit "} 5")
              [] (lit "1") (label (lit "cluster") (lit "c")) (lit " ")
              (lit "5")
              (sample (lit "bdb_used_memory")
                      (label (lit "bdb") (lit "2") ++ lit ",") (lit "1")
               ++ [nl])
              [] (Z2SF 5) eq_refl) as (H1 & H2 & H3).
  split; [exact H1|]. split; [exact (H2 eq_refl)|].
  apply H3; solve [reflexivity | discriminate].
Defined.

(** On [suffix_later_text] the parse for [bdb_used_memory] returns both
    samples, the one of the longer name included; and a family name that
    stands inside a label value, in front of a brace, starts a match as
    well. *)
Lemma parse_metrics_suffix_later :
  parse_metrics suffix_later_text (lit "bdb_used_memory")
  = Ok [(lit "2", Z2SF 1); (lit "1", Z2SF 5)].
Proof. vm_compute. reflexivity. Qed.

Lemma parse_metrics_name_inside_label :
  parse_metrics inside_label_text (lit "bdb_used_memory")
  = Ok [(lit "3", Z2SF 7)].
Proof. vm_compute. reflexivity. Qed.

(** C2, as stated, fails: the line for [some_prefix_bdb_used_memory]
    contributes its sample when parsing for [bdb_used_memory]. *)
Lemma parse_metrics_suffix_contributes :
  parse_metrics suffix_text (lit "bdb_used_memory") = Ok [(lit "1", Z2SF 5)]
  /\ parse_metrics suffix_text (lit "bdb_used_memory") <> Ok [].
Proof. split; [vm_compute; reflexivity | vm_compute; discriminate]. Qed.

(** C3, as amended: when an entity-id is matched several times the last
    match wins, by overwriting: the table of a parse that returns maps
    every id to the float of the last value matched for it; concretely the
    two lines [m{bdb='1',} 5] and [m{bdb='1',} 7] give exactly the table
    with ['1'] mapped to [7.0]. *)
Theorem parse_metrics_last_wins (text name : str) (t : dict float) (X : str) :
  plain_name name = true ->
  parse_metrics text name = Ok t ->
  match last_value X (findall (pattern name) text) with
  | Some v => exists f, py_float v = Ok f /\ dict_get X t = Some f
  | None => dict_get X t = None
  end /\
  parse_metrics duplicate_comma_text (lit "m") = Ok [(lit "1", Z2SF 7)].
Proof.
  intros _ Ht. split; [|vm_compute; reflexivity].
  exact (dict_comp_last X _ _ _ Ht).
Qed.

Lemma parse_metrics_last_wins_witness :
  match last_value (lit "1") (findall (pattern (lit "m")) duplicate_comma_text)
  with
  | Some v => exists f, py_float v = Ok f /\
                        dict_get (lit "1") [(lit "1", Z2SF 7)] = Some f
  | None => dict_get (lit "1") [(lit "1", Z2SF 7)] = None
  end /\
  parse_metrics duplicate_comma_text (lit "m") = Ok [(lit "1", Z2SF 7)].
Proof.
  apply (parse_metrics_last_wins duplicate_comma_text (lit "m")
           [(lit "1", Z2SF 7)] (lit "1")).
  - reflexivity.
  - vm_compute. reflexivity.
Defined.

(** C3, as stated, fails on its example: no comma follows the [bdb] label
    in [m{bdb='1'} 5] and [m{bdb='1'} 7], neither line matches and the
    table is empty. *)
Lemma parse_metrics_duplicate_example_empty :
  parse_metrics duplicate_text (lit "m") = Ok []
  /\ parse_metrics duplicate_text (lit "m") <> Ok [(lit "1", Z2SF 7)].
Proof. split; [vm_compute; reflexivity | vm_compute; discriminate]. Qed.

(** The groups of a match: digits, and characters of the value class. *)
Lemma run_pattern_groups (R : Type) name s caps0
      (k : str -> captures -> option R) res :
  run (pattern name) s caps0 k = Some res ->
  exists D Vv s',
    D <> [] /\ forallb digit D = true /\
    Vv <> [] /\ forallb value_char Vv = true /\
    k s' ((2, Vv) :: (1, D) :: caps0) = Some res.
Proof.
  unfold pattern. cbn [seq run]. intros H.
  destruct (strip_prefix name s) as [s1|]; [|discriminate].
  destruct (strip_prefix (lit "{") s1) as [s2|]; [|discriminate].
  apply lazy_star_sound in H as (A & s3 & _ & _ & H).
  destruct (strip_prefix bdb_key s3) as [s4|]; [|discriminate].
  apply greedy_plus_sound in H as (D & s5 & -> & HD & HDd & H).
  rewrite firstn_consumed in H.
  destruct (strip_prefix (dq :: lit ",") s5) as [s6|]; [|discriminate].
  apply lazy_star_sound in H as (B & s7 & _ & _ & H).
  destruct (strip_prefix (lit "}") s7) as [s8|]; [|discriminate].
  apply greedy_plus_sound in H as (W & s9 & _ & _ & _ & H).
  apply greedy_plus_sound in H as (Vv & s' & -> & HV & HVv & H).
  rewrite firstn_consumed in H.
  exists D, Vv, s'. repeat split; assumption.
Qed.

Lemma findall_groups name text X v :
  In (X, v) (findall (pattern name) text) ->
  (X <> [] /\ forallb digit X = true) /\
  (v <> [] /\ forallb value_char v = true).
Proof.
  unfold findall. intros H. apply in_map_iff in H as ([i caps] & E & H).
  apply finditer_In in H as [_ [len H]]. unfold match_at in H.
  apply run_pattern_groups in H as (D & Vv & s' & HD & HDd & HV & HVv & H).
  injection H as _ <-. simpl in E. injection E as <- <-. auto.
Qed.

(** C4, as amended: the parse of an empty text is the empty table; text
    that the pattern does not match is skipped; the parse returns whenever
    every matched value token is a float literal, and the only exception
    it raises is the [ValueError] of [float] on a matched token of
    [[\d.e+-]+] that is no float literal, which aborts the whole parse. *)
Theorem parse_metrics_raises_only_on_bad_token (text name : str) :
  plain_name name = true ->
  parse_metrics [] name = Ok [] /\
  (findall (pattern name) text = [] -> parse_metrics text name = Ok []) /\
  ((forall X v, In (X, v) (findall (pattern name) text) ->
                exists f, py_float v = Ok f) ->
   exists t, parse_metrics text name = Ok t) /\
  (forall e, parse_metrics text name = Raise e ->
             e = ValueError /\
             exists X v, In (X, v) (findall (pattern name) text) /\
                         forallb value_char v = true /\
                         py_float v = Raise ValueError).
Proof.
  intros _. unfold parse_metrics. split; [|split; [|split]].
  - unfold findall. simpl. rewrite match_at_empty. reflexivity.
  - intros ->. reflexivity.
  - apply dict_comp_ok.
  - intros e H. apply dict_comp_raise in H as [-> (X & v & Hin & Hv)].
    split; [reflexivity|]. exists X, v.
    pose proof (findall_groups _ _ _ _ Hin) as [_ [_ Hc]]. auto.
Qed.

Lemma parse_metrics_raises_only_on_bad_token_witness :
  parse_metrics [] (lit "m") = Ok [] /\
  (findall (pattern (lit "m")) bad_value_text = [] ->
   parse_metrics bad_value_text (lit "m") = Ok []) /\
  ((forall X v, In (X, v) (findall (pattern (lit "m")) bad_value_text) ->
                exists f, py_float v = Ok f) ->
   exists t, parse_metrics bad_value_text (lit "m") = Ok t) /\
  (forall e, parse_metrics bad_value_text (lit "m") = Raise e ->
             e = ValueError /\
             exists X v,
               In (X, v) (findall (pattern (lit "m")) bad_value_text) /\
               forallb value_char v = true /\
               py_float v = Raise ValueError).
Proof.
  apply (parse_metrics_raises_only_on_bad_token bad_value_text (lit "m")).
  reflexivity.
Defined.

(** C4, as stated, fails: the value token [1.2.3] is matched by the
    pattern and [float] raises on it, so the parse raises instead of
    leaving the line out. *)
Lemma parse_metrics_bad_token_raises :
  parse_metrics bad_value_text (lit "m") = Raise ValueError.
Proof. vm_compute. reflexivity. Qed.

(** ** Correct rounding

    The division and the rounding of the Standard Library, on which
    [round(x, 2)] and the true division are built, give the nearest
    double. *)

Local Open Scope Z_scope.

Lemma digits2_pos_bounds p :
  2 ^ (Zpos (digits2_pos p) - 1) <= Zpos p < 2 ^ Zpos (digits2_pos p).
Proof.
  induction p as [p IH|p IH|]; cbn [digits2_pos].
  - rewrite Pos2Z.inj_succ.
    replace (Z.succ (Zpos (digits2_pos p)) - 1) with (Z.succ (Zpos (digits2_pos p) - 1)) by lia.
    rewrite !Z.pow_succ_r by lia. lia.
  - rewrite Pos2Z.inj_succ.
    replace (Z.succ (Zpos (digits2_pos p)) - 1) with (Z.succ (Zpos (digits2_pos p) - 1)) by lia.
    rewrite !Z.pow_succ_r by lia. lia.
  - simpl. lia.
Qed.

Lemma Zdigits2_bounds m :
  0 < m -> 2 ^ (Zdigits2 m - 1) <= m < 2 ^ Zdigits2 m.
Proof. destruct m as [|p|p]; try lia. intros _. apply digits2_pos_bounds. Qed.

Lemma Zdigits2_nonneg m : 0 <= Zdigits2 m.
Proof. destruct m; simpl; lia. Qed.

Lemma Zdigits2_unique m k :
  0 < m -> 2 ^ (k - 1) <= m < 2 ^ k -> Zdigits2 m = k.
Proof.
  intros Hm [Hlo Hhi]. pose proof (Zdigits2_bounds m Hm) as [Dlo Dhi].
  pose proof (Zdigits2_nonneg m).
  assert (0 < k).
  { destruct (Z.lt_trichotomy k 0) as [Hk|[Hk|Hk]]; try lia.
    - rewrite (Z.pow_neg_r 2 k) in Hhi by lia. lia.
    - subst k. simpl in Hhi. lia. }
  destruct (Z.lt_trichotomy (Zdigits2 m) k) as [Hlt|[Heq|Hgt]]; [|exact Heq|].
  - assert (2 ^ Zdigits2 m <= 2 ^ (k - 1)) by (apply Z.pow_le_mono_r; lia). lia.
  - assert (2 ^ k <= 2 ^ (Zdigits2 m - 1)) by (apply Z.pow_le_mono_r; lia). lia.
Qed.

Lemma shr_1_inbetween mrs a b :
  0 < b -> 0 <= shr_m mrs ->
  inbetween (shr_m mrs) (loc_of_shr_record mrs) a b ->
  shr_m (shr_1 mrs) = shr_m mrs / 2 /\
  inbetween (shr_m (shr_1 mrs)) (loc_of_shr_record (shr_1 mrs)) a (2 * b).
Proof.
  destruct mrs as [m r s]. cbn [shr_m]. intros Hb Hm H.
  destruct m as [|[p|p|]|p]; try lia.
  - destruct r, s;
      cbn [shr_1 shr_m shr_r shr_s loc_of_shr_record inbetween orb] in *;
      split; try reflexivity; lia.
  - assert (E : Zpos p~1 / 2 = Zpos p).
    { rewrite Pos2Z.inj_xI. symmetry. apply (Z.div_unique _ _ _ 1); lia. }
    rewrite E. rewrite Pos2Z.inj_xI in H.
    destruct r, s;
      cbn [shr_1 shr_m shr_r shr_s loc_of_shr_record inbetween orb] in *;
      split; try reflexivity; nia.
  - assert (E : Zpos p~0 / 2 = Zpos p).
    { rewrite Pos2Z.inj_xO. symmetry. apply (Z.div_unique _ _ _ 0); lia. }
    rewrite E. rewrite Pos2Z.inj_xO in H.
    destruct r, s;
      cbn [shr_1 shr_m shr_r shr_s loc_of_shr_record inbetween orb] in *;
      split; try reflexivity; nia.
  - destruct r, s;
      cbn [shr_1 shr_m shr_r shr_s loc_of_shr_record inbetween orb] in *;
      split; try reflexivity; lia.
Qed.

Lemma iter_pos_shr_1 (p : positive) :
  forall mrs a b,
    0 < b -> 0 <= shr_m mrs ->
    inbetween (shr_m mrs) (loc_of_shr_record mrs) a b ->
    shr_m (iter_pos shr_1 p mrs) = shr_m mrs / 2 ^ Zpos p /\
    inbetween (shr_m (iter_pos shr_1 p mrs))
      (loc_of_shr_record (iter_pos shr_1 p mrs)) a (b * 2 ^ Zpos p).
Proof.
  induction p as [p IH|p IH|]; intros mrs a b Hb Hm H; cbn [iter_pos].
  - destruct (shr_1_inbetween mrs a b Hb Hm H) as [E0 H0].
    assert (P : 0 < 2 ^ Zpos p) by (apply Z.pow_pos_nonneg; lia).
    assert (M0 : 0 <= shr_m (shr_1 mrs)).
    { rewrite E0. apply Z.div_pos; lia. }
    destruct (IH _ a (2 * b) ltac:(lia) M0 H0) as [E1 H1].
    assert (M1 : 0 <= shr_m (iter_pos shr_1 p (shr_1 mrs))).
    { rewrite E1. apply Z.div_pos; lia. }
    destruct (IH _ a (2 * b * 2 ^ Zpos p) ltac:(nia) M1 H1) as [E2 H2].
    rewrite (Pos2Z.inj_xI p).
    replace (2 * Zpos p + 1) with (1 + Zpos p + Zpos p) by lia.
    rewrite !Z.pow_add_r by lia. rewrite Z.pow_1_r.
    split.
    + rewrite E2, E1, E0. rewrite !Z.div_div by lia. f_equal. ring.
    + replace (b * (2 * 2 ^ Zpos p * 2 ^ Zpos p))
        with (2 * b * 2 ^ Zpos p * 2 ^ Zpos p) by ring.
      exact H2.
  - destruct (IH mrs a b Hb Hm H) as [E1 H1].
    assert (P : 0 < 2 ^ Zpos p) by (apply Z.pow_pos_nonneg; lia).
    assert (M1 : 0 <= shr_m (iter_pos shr_1 p mrs)).
    { rewrite E1. apply Z.div_pos; lia. }
    destruct (IH _ a (b * 2 ^ Zpos p) ltac:(nia) M1 H1) as [E2 H2].
    rewrite (Pos2Z.inj_xO p).
    replace (2 * Zpos p) with (Zpos p + Zpos p) by lia.
    rewrite !Z.pow_add_r by lia.
    split.
    + rewrite E2, E1. rewrite !Z.div_div by lia. f_equal.
    + replace (b * (2 ^ Zpos p * 2 ^ Zpos p))
        with (b * 2 ^ Zpos p * 2 ^ Zpos p) by ring.
      exact H2.
  - destruct (shr_1_inbetween mrs a b Hb Hm H) as [E1 H1].
    rewrite Z.pow_1_r. split; [exact E1|].
    replace (b * 2) with (2 * b) by ring. exact H1.
Qed.

Lemma shr_record_of_loc_spec m l :
  shr_m (shr_record_of_loc m l) = m /\
  loc_of_shr_record (shr_record_of_loc m l) = l.
Proof. destruct l as [|[| |]]; split; reflexivity. Qed.

(** [shr]: dropping [k] low bits keeps the position of the exact value. *)
Lemma shr_spec m l e k a b :
  0 < b -> 0 <= m -> inbetween m l a b ->
  let '(mrs, e1) := shr (shr_record_of_loc m l) e k in
  let k' := Z.max k 0 in
  e1 = e + k' /\ shr_m mrs = m / 2 ^ k' /\
  inbetween (shr_m mrs) (loc_of_shr_record mrs) a (b * 2 ^ k').
Proof.
  intros Hb Hm H. destruct (shr_record_of_loc_spec m l) as [Em El].
  unfold shr. destruct k as [|p|p].
  - cbn [Z.max Z.compare]. rewrite Z.pow_0_r, Z.div_1_r, Z.mul_1_r, Em, El.
    repeat split; [lia|exact H].
  - replace (Z.max (Zpos p) 0) with (Zpos p) by lia.
    destruct (iter_pos_shr_1 p (shr_record_of_loc m l) a b Hb) as [E1 H1].
    + rewrite Em. exact Hm.
    + rewrite Em, El. exact H.
    + rewrite Em in E1. repeat split; [exact E1|exact H1].
  - replace (Z.max (Zneg p) 0) with 0 by lia.
    rewrite Z.pow_0_r, Z.div_1_r, Z.mul_1_r, Em, El.
    repeat split; [lia|exact H].
Qed.

Lemma Zdigits2_ge m j : 2 ^ (j - 1) <= m -> 0 < j -> j <= Zdigits2 m.
Proof.
  intros H Hj.
  assert (0 < 2 ^ (j - 1)) by (apply Z.pow_pos_nonneg; lia).
  pose proof (Zdigits2_bounds m ltac:(lia)) as [_ Hhi].
  destruct (Z_lt_le_dec (Zdigits2 m) j) as [Hlt|]; [|assumption].
  assert (2 ^ Zdigits2 m <= 2 ^ (j - 1)) by (apply Z.pow_le_mono_r; lia).
  lia.
Qed.

Lemma Zdigits2_le m j : 0 <= m < 2 ^ j -> 0 <= j -> Zdigits2 m <= j.
Proof.
  intros [Hm H] Hj. destruct (Z.eq_dec m 0) as [->|Hn]; [simpl; lia|].
  pose proof (Zdigits2_bounds m ltac:(lia)) as [Hlo _].
  destruct (Z_lt_le_dec j (Zdigits2 m)) as [Hlt|]; [|assumption].
  assert (2 ^ j <= 2 ^ (Zdigits2 m - 1)) by (apply Z.pow_le_mono_r; lia).
  lia.
Qed.

Lemma Zdigits2_shift m k :
  0 <= k -> 2 ^ k <= m -> Zdigits2 (m / 2 ^ k) = Zdigits2 m - k.
Proof.
  intros Hk Hm.
  assert (P : 0 < 2 ^ k) by (apply Z.pow_pos_nonneg; lia).
  pose proof (Zdigits2_bounds m ltac:(lia)) as [Hlo Hhi].
  assert (D : k < Zdigits2 m).
  { destruct (Z_lt_le_dec k (Zdigits2 m)) as [|Hle]; [assumption|].
    assert (2 ^ Zdigits2 m <= 2 ^ k)
      by (apply Z.pow_le_mono_r; lia). lia. }
  assert (Q : 0 < m / 2 ^ k).
  { apply Z.div_str_pos. lia. }
  apply Zdigits2_unique; [exact Q|].
  split.
  - apply Z.div_le_lower_bound; [exact P|].
    rewrite <- Z.pow_add_r by lia.
    replace (k + (Zdigits2 m - k - 1)) with (Zdigits2 m - 1) by lia.
    exact Hlo.
  - apply Z.div_lt_upper_bound; [exact P|].
    rewrite <- Z.pow_add_r by lia.
    replace (k + (Zdigits2 m - k)) with (Zdigits2 m) by lia.
    exact Hhi.
Qed.

Lemma fexp_eq t : fexp prec emax t = Z.max (t - 53) (-1074).
Proof. reflexivity. Qed.

Lemma round_nearest_even_spec m l a b :
  0 < b -> inbetween m l a b ->
  let m2 := round_nearest_even m l in
  (m2 = m \/ m2 = m + 1) /\
  m * b <= a < (m + 1) * b /\
  2 * Z.abs (m2 * b - a) <= b /\
  (2 * Z.abs (m2 * b - a) = b -> Z.even m2 = true).
Proof.
  intros Hb H. destruct l as [|[| |]]; cbn [inbetween round_nearest_even] in *.
  - repeat split; lia.
  - destruct (Z.even m) eqn:Ev.
    + repeat split; try lia. intros _. exact Ev.
    + repeat split; try lia. intros _.
      rewrite Z.even_add, Ev. reflexivity.
  - repeat split; try lia.
  - repeat split; try lia.
Qed.

(** No double lies strictly between two neighbours of the grid of the
    canonical exponent, so the nearer neighbour is the nearest double. *)
Lemma nearest_on_grid (m1 m2 e1 T b : Z) :
  0 < b -> -1074 <= e1 -> 0 <= m1 ->
  (m2 = m1 \/ m2 = m1 + 1) ->
  let G := 2 ^ (e1 + 1074) in
  m1 * G * b <= T < (m1 + 1) * G * b ->
  2 * Z.abs (m2 * G * b - T) <= G * b ->
  (2 * Z.abs (m2 * G * b - T) = G * b -> Z.even m2 = true) ->
  (-1074 < e1 -> 2 ^ 52 <= m1) ->
  forall y, binary64 y ->
    Z.abs (m2 * G * b - T) <= Z.abs (units y * b - T) /\
    (Z.abs (m2 * G * b - T) = Z.abs (units y * b - T) ->
     units y <> m2 * G -> Z.even m2 = true).
Proof.
  intros Hb He Hm1 Hm2 G HT Hn Ht Hbig y [Fy Vy].
  assert (PG : 0 < G) by (apply Z.pow_pos_nonneg; lia).
  assert (Side : units y <= m1 * G \/ (m1 + 1) * G <= units y).
  { destruct y as [sy|sy| |sy my ey]; try discriminate.
    - left. cbn [units]. nia.
    - cbn [valid_binary] in Vy. unfold bounded, canonical_mantissa in Vy.
      apply andb_true_iff in Vy as [Vc _]. apply Z.eqb_eq in Vc.
      rewrite fexp_eq in Vc.
      pose proof (digits2_pos_bounds my) as [_ Dhi].
      cbn [units].
      destruct (Z_lt_le_dec ey e1) as [Hlt|Hge].
      + left.
        assert (Zpos (digits2_pos my) <= 53) by lia.
        assert (Zpos my < 2 ^ 53).
        { eapply Z.lt_le_trans; [exact Dhi|]. apply Z.pow_le_mono_r; lia. }
        assert (PY : 0 < 2 ^ (ey + 1074)) by (apply Z.pow_pos_nonneg; lia).
        assert (EG : G = 2 ^ (ey + 1074) * 2 ^ (e1 - ey)).
        { unfold G. rewrite <- Z.pow_add_r by lia. f_equal. lia. }
        assert (2 <= 2 ^ (e1 - ey)).
        { change 2 with (2 ^ 1) at 1. apply Z.pow_le_mono_r; lia. }
        specialize (Hbig ltac:(lia)).
        change (2 ^ 53) with (2 * 2 ^ 52) in *.
        rewrite EG. nia.
      + assert (EY : 2 ^ (ey + 1074) = 2 ^ (ey - e1) * G).
        { unfold G. rewrite <- Z.pow_add_r by lia. f_equal. lia. }
        rewrite EY.
        assert (0 < 2 ^ (ey - e1)) by (apply Z.pow_pos_nonneg; lia).
        destruct (Z_le_gt_dec (Zpos my * 2 ^ (ey - e1)) m1); [left|right]; nia. }
  assert (Sb : units y * b <= m1 * G * b \/ (m1 + 1) * G * b <= units y * b).
  { destruct Side; [left|right]; nia. }
  assert (HL : (m1 + 1) * G * b = m1 * G * b + G * b) by ring.
  assert (Ne : units y <> m2 * G -> units y * b <> m2 * G * b) by nia.
  split.
  - destruct Hm2 as [-> | ->]; lia.
  - intros Heq Hne. apply Ht. specialize (Ne Hne).
    destruct Hm2 as [-> | ->]; lia.
Qed.

(** [binary_round_aux] rounds on the grid of the canonical exponent. *)
Lemma binary_round_aux_grid s m e l a b :
  0 < b -> 0 <= m -> inbetween m l a b ->
  e <= fexp prec emax (Zdigits2 m + e) -> -1074 <= e ->
  exists m1 m2 e1 k,
    0 <= k /\ e1 = e + k /\ -1074 <= e1 /\ 0 <= m1 /\
    (m2 = m1 \/ m2 = m1 + 1) /\
    m1 * (b * 2 ^ k) <= a < (m1 + 1) * (b * 2 ^ k) /\
    2 * Z.abs (m2 * (b * 2 ^ k) - a) <= b * 2 ^ k /\
    (2 * Z.abs (m2 * (b * 2 ^ k) - a) = b * 2 ^ k -> Z.even m2 = true) /\
    (-1074 < e1 -> 2 ^ 52 <= m1) /\
    match binary_round_aux prec emax s m e l with
    | S754_nan => False
    | S754_infinity _ => True
    | S754_zero s' => s' = s /\ m2 = 0
    | S754_finite s' mp ep =>
      s' = s /\ bounded prec emax mp ep = true /\
      Zpos mp * 2 ^ (ep + 1074) = m2 * 2 ^ (e1 + 1074) /\
      (Z.even m2 = true -> Z.even (Zpos mp) = true)
    end.
Proof.
  intros Hb Hm H Hk He.
  unfold binary_round_aux, shr_fexp.
  set (k := fexp prec emax (Zdigits2 m + e) - e).
  assert (K0 : 0 <= k) by (unfold k; lia).
  pose proof (shr_spec m l e k a b Hb Hm H) as S1.
  destruct (shr (shr_record_of_loc m l) e k) as [mrs1 e1].
  replace (Z.max k 0) with k in S1 by lia.
  destruct S1 as (E1 & M1 & I1).
  set (m1 := shr_m mrs1) in *. set (l1 := loc_of_shr_record mrs1) in *.
  assert (P2 : 0 < 2 ^ k) by (apply Z.pow_pos_nonneg; lia).
  assert (B : 0 < b * 2 ^ k) by nia.
  assert (M1' : 0 <= m1) by (rewrite M1; apply Z.div_pos; lia).
  destruct (round_nearest_even_spec m1 l1 a (b * 2 ^ k) B I1)
    as (R1 & R2 & R3 & R4).
  set (m2 := round_nearest_even m1 l1) in *.
  assert (C1 : e1 = fexp prec emax (Zdigits2 m + e)) by (unfold k in E1; lia).
  rewrite fexp_eq in C1.
  (* the digits of [m1] *)
  assert (D1 : (m1 = 0 /\ e1 = -1074) \/
               (0 < m1 /\ Zdigits2 m1 + e1 = Zdigits2 m + e)).
  { destruct (Z.eq_dec m1 0) as [Z1|N1].
    - left. split; [exact Z1|].
      assert (m < 2 ^ k).
      { destruct (Z_lt_le_dec m (2 ^ k)) as [|Hge]; [assumption|].
        assert (0 < m / 2 ^ k) by (apply Z.div_str_pos; lia). lia. }
      pose proof (Zdigits2_le m k ltac:(lia) K0). lia.
    - right. split; [lia|].
      assert (2 ^ k <= m).
      { destruct (Z_lt_le_dec m (2 ^ k)) as [Hlt|]; [|assumption].
        rewrite Z.div_small in M1 by lia. lia. }
      rewrite M1, (Zdigits2_shift m k K0) by assumption. lia. }
  assert (Big : -1074 < e1 -> 2 ^ 52 <= m1).
  { intros Hgt. destruct D1 as [[_ D1]|[Q1 D1]]; [lia|].
    pose proof (Zdigits2_bounds m1 Q1) as [Dlo _].
    replace (Zdigits2 m1) with 53 in Dlo by lia. exact Dlo. }
  (* the second shift *)
  set (k2 := fexp prec emax (Zdigits2 m2 + e1) - e1).
  assert (I2 : inbetween m2 loc_Exact m2 1) by (cbn [inbetween]; lia).
  pose proof (shr_spec m2 loc_Exact e1 k2 m2 1 ltac:(lia) ltac:(lia) I2) as S2.
  destruct (shr (shr_record_of_loc m2 loc_Exact) e1 k2) as [mrs3 e3].
  destruct S2 as (E3 & M3 & _).
  exists m1, m2, e1, k.
  repeat (split; [first [assumption|lia]|]).
  destruct (Z.eq_dec m2 0) as [Z2|N2].
  - rewrite M3, Z2, Z.div_0_l.
    + split; reflexivity.
    + apply Z.pow_nonzero; lia.
  - assert (Q2 : 0 < m2) by lia.
    pose proof (Zdigits2_bounds m2 Q2) as [D2lo D2hi].
    assert (K2 : (k2 = 0) \/ (k2 = 1 /\ m2 = 2 ^ 53)).
    { unfold k2. rewrite fexp_eq.
      destruct D1 as [[Z1 D1]|[Q1 D1]].
      - left. assert (m2 = 1) by lia.
        replace m2 with 1 by lia. cbn [Zdigits2 digits2_pos]. lia.
      - pose proof (Zdigits2_bounds m1 Q1) as [Dlo Dhi].
        assert (Zdigits2 m1 <= Zdigits2 m2).
        { apply Zdigits2_ge; [lia|]. pose proof (Zdigits2_nonneg m1).
          destruct (Z.eq_dec (Zdigits2 m1) 0) as [Z0|]; [|lia].
          rewrite Z0 in Dhi. simpl in Dhi. lia. }
        assert (Zdigits2 m2 <= Zdigits2 m1 + 1).
        { apply Zdigits2_le; [|pose proof (Zdigits2_nonneg m1); lia].
          rewrite Z.pow_add_r by (pose proof (Zdigits2_nonneg m1); lia).
          lia. }
        destruct (Z.eq_dec (Zdigits2 m2) (Zdigits2 m1)) as [Eq|Ne].
        + left. lia.
        + assert (E2 : Zdigits2 m2 = Zdigits2 m1 + 1) by lia.
          assert (m2 = 2 ^ Zdigits2 m1).
          { rewrite E2 in D2lo.
            replace (Zdigits2 m1 + 1 - 1) with (Zdigits2 m1) in D2lo by lia.
            lia. }
          destruct (Z.eq_dec (Zdigits2 m1) 53) as [E53|N53].
          * right. split; [lia|]. rewrite <- E53. assumption.
          * left. lia. }
    destruct K2 as [K2|[K2 E2]].
    + rewrite K2 in E3, M3. change (Z.max 0 0) with 0 in E3, M3.
      rewrite Z.add_0_r in E3. subst e3.
      rewrite Z.pow_0_r, Z.div_1_r in M3. rewrite M3.
      destruct m2 as [|mp|mp]; try lia.
      assert (V : e1 <= emax - prec -> bounded prec emax mp e1 = true).
      { intros Hle. unfold bounded, canonical_mantissa.
        apply andb_true_iff. split; [|apply Z.leb_le; exact Hle].
        apply Z.eqb_eq. unfold k2 in K2. cbn [Zdigits2] in K2. lia. }
      destruct (e1 <=? emax - prec) eqn:Hle; [|exact I].
      apply Z.leb_le in Hle.
      split; [reflexivity|]. split; [exact (V Hle)|].
      split; [reflexivity|auto].
    + rewrite K2 in E3, M3. change (Z.max 1 0) with 1 in E3, M3.
      rewrite E2 in M3. rewrite M3.
      change (2 ^ 53 / 2 ^ 1) with (Zpos (2 ^ 52)).
      assert (V : e3 <= emax - prec -> bounded prec emax (2 ^ 52) e3 = true).
      { intros Hle. unfold bounded, canonical_mantissa.
        apply andb_true_iff. split; [|apply Z.leb_le; exact Hle].
        apply Z.eqb_eq. change (Zpos (digits2_pos (2 ^ 52))) with 53.
        rewrite fexp_eq. unfold k2 in K2. rewrite fexp_eq, E2 in K2.
        change (Zdigits2 (2 ^ 53)) with 54 in K2. lia. }
      destruct (e3 <=? emax - prec) eqn:Hle; [|exact I].
      apply Z.leb_le in Hle.
      split; [reflexivity|]. split; [exact (V Hle)|].
      split; [|intros _; reflexivity].
      rewrite E2, E3.
      replace (e1 + 1 + 1074) with (1 + (e1 + 1074)) by lia.
      rewrite Z.pow_add_r by lia. change (2 ^ 53) with (2 ^ 52 * 2 ^ 1).
      change (Zpos (2 ^ 52)) with (2 ^ 52). ring.
Qed.

Lemma new_location_inbetween d r q :
  0 < d -> 0 <= r < d ->
  inbetween q (new_location d r) (d * q + r) d.
Proof.
  intros Hd Hr. unfold new_location.
  destruct (Z.even d) eqn:Ev.
  - unfold new_location_even. destruct (Z.eqb_spec r 0) as [->|Hn].
    + cbn [inbetween]. ring.
    + destruct (Z.compare_spec (2 * r) d); cbn [inbetween]; nia.
  - unfold new_location_odd. destruct (Z.eqb_spec r 0) as [->|Hn].
    + cbn [inbetween]. ring.
    + assert (Od : 2 * r <> d).
      { intros E. rewrite <- E, Z.even_mul in Ev. discriminate. }
      destruct (Z.compare_spec (2 * r + 1) d); cbn [inbetween]; nia.
Qed.

(** The quotient that [SFdiv_core_binary] hands to the rounding has the
    bits that the rounding needs. *)
Lemma SFdiv_core_binary_spec (n d : positive) :
  let '(q, e, l) := SFdiv_core_binary prec emax (Zpos n) 0 (Zpos d) 0 in
  -1074 <= e <= 0 /\ 0 <= q /\
  inbetween q l (Zpos n * 2 ^ (- e)) (Zpos d) /\
  e <= fexp prec emax (Zdigits2 q + e).
Proof.
  unfold SFdiv_core_binary.
  set (d1 := Zdigits2 (Zpos n)). set (d2 := Zdigits2 (Zpos d)).
  rewrite !Z.add_0_r, Z.sub_0_r, fexp_eq.
  set (e := Z.min (Z.max (d1 - d2 - 53) (-1074)) 0).
  assert (E0 : -1074 <= e <= 0) by (unfold e; lia).
  set (m := match 0 - e with
            | 0 => Zpos n
            | Zpos _ => Z.shiftl (Zpos n) (0 - e)
            | Zneg _ => 0
            end).
  assert (Em : m = Zpos n * 2 ^ (- e)).
  { unfold m. replace (0 - e) with (- e) by lia.
    destruct (- e) as [|p|p] eqn:Ee; try lia.
    rewrite Z.shiftl_mul_pow2 by lia. reflexivity. }
  assert (P : 0 < 2 ^ (- e)) by (apply Z.pow_pos_nonneg; lia).
  pose proof (Z_div_mod m (Zpos d) ltac:(lia)) as DM.
  destruct (Z.div_eucl m (Zpos d)) as [q r]. destruct DM as [DM Hr].
  assert (Q0 : 0 <= q) by nia.
  repeat split; try lia.
  - rewrite <- Em, DM. apply new_location_inbetween; lia.
  - rewrite fexp_eq.
    destruct (Z_le_gt_dec e (-1074)) as [|Hgt]; [lia|].
    assert (Ee : e <= d1 - d2 - 53) by (unfold e in *; lia).
    pose proof (digits2_pos_bounds n) as [Nlo _].
    pose proof (digits2_pos_bounds d) as [_ Dhi].
    fold (Zdigits2 (Zpos n)) in Nlo. fold (Zdigits2 (Zpos d)) in Dhi.
    fold d1 in Nlo. fold d2 in Dhi.
    assert (53 <= Zdigits2 q); [|lia].
    apply Zdigits2_ge; [|lia].
    change (53 - 1) with 52.
    assert (D2 : 0 < d2) by (unfold d2; simpl; lia).
    assert (D1 : 0 < d1) by (unfold d1; simpl; lia).
    assert (2 ^ 52 * 2 ^ d2 <= m).
    { rewrite Em. rewrite <- Z.pow_add_r by lia.
      apply Z.le_trans with (2 ^ (d1 - 1) * 2 ^ (- e)).
      - rewrite <- Z.pow_add_r by lia. apply Z.pow_le_mono_r; lia.
      - apply Z.mul_le_mono_nonneg_r; lia. }
    assert (P52 : 0 < 2 ^ 52) by reflexivity.
    nia.
Qed.

(** [ratio2SF s n d] is never a NaN, and when it is finite it is the
    double nearest to [n / d], with ties to even. *)
Lemma ratio2SF_nearest (s : bool) (n d : positive) :
  ratio2SF s n d <> S754_nan /\
  (is_finite (ratio2SF s n d) = true ->
   sign (ratio2SF s n d) = s /\
   nearest_double (Zpos n) (Zpos d) (ratio2SF s n d)).
Proof.
  unfold ratio2SF.
  pose proof (SFdiv_core_binary_spec n d) as C.
  destruct (SFdiv_core_binary prec emax (Zpos n) 0 (Zpos d) 0) as [[q e] l].
  destruct C as (He & Hq & Hin & Hk).
  destruct (binary_round_aux_grid s q e l (Zpos n * 2 ^ (- e)) (Zpos d)
              ltac:(lia) Hq Hin Hk ltac:(lia))
    as (m1 & m2 & e1 & k & K0 & E1 & He1 & M1 & M2 & R2 & R3 & R4 & Big & R).
  set (p := binary_round_aux prec emax s q e l) in *.
  assert (PE : 0 < 2 ^ (e + 1074)) by (apply Z.pow_pos_nonneg; lia).
  assert (PK : 0 < 2 ^ k) by (apply Z.pow_pos_nonneg; lia).
  assert (EG : 2 ^ (e1 + 1074) = 2 ^ k * 2 ^ (e + 1074)).
  { rewrite <- Z.pow_add_r by lia. f_equal. lia. }
  assert (ET : Zpos n * 2 ^ 1074 = Zpos n * 2 ^ (- e) * 2 ^ (e + 1074)).
  { rewrite <- Z.mul_assoc, <- Z.pow_add_r by lia. do 2 f_equal. lia. }
  assert (X : forall z,
             z * 2 ^ (e1 + 1074) * Zpos d - Zpos n * 2 ^ 1074
             = (z * (Zpos d * 2 ^ k) - Zpos n * 2 ^ (- e)) * 2 ^ (e + 1074)).
  { intros z. rewrite EG, ET. ring. }
  assert (Y : 2 ^ (e1 + 1074) * Zpos d = Zpos d * 2 ^ k * 2 ^ (e + 1074)).
  { rewrite EG. ring. }
  assert (A1 : m1 * 2 ^ (e1 + 1074) * Zpos d <= Zpos n * 2 ^ 1074
               < (m1 + 1) * 2 ^ (e1 + 1074) * Zpos d).
  { rewrite EG, ET. nia. }
  assert (A2 : 2 * Z.abs (m2 * 2 ^ (e1 + 1074) * Zpos d - Zpos n * 2 ^ 1074)
               <= 2 ^ (e1 + 1074) * Zpos d).
  { rewrite X, Y, Z.abs_mul, (Z.abs_eq (2 ^ (e + 1074))) by lia. nia. }
  assert (A3 : 2 * Z.abs (m2 * 2 ^ (e1 + 1074) * Zpos d - Zpos n * 2 ^ 1074)
               = 2 ^ (e1 + 1074) * Zpos d -> Z.even m2 = true).
  { rewrite X, Y, Z.abs_mul, (Z.abs_eq (2 ^ (e + 1074))) by lia.
    intros HH. apply R4. nia. }
  pose proof (nearest_on_grid m1 m2 e1 (Zpos n * 2 ^ 1074) (Zpos d)
                ltac:(lia) He1 M1 M2 A1 A2 A3 Big) as N.
  split.
  - intros Hp. rewrite Hp in R. exact R.
  - intros Fp.
    assert (U : units p = m2 * 2 ^ (e1 + 1074) /\ sign p = s /\
                valid_binary prec emax p = true /\
                (Z.even m2 = true -> Z.even (mantissa p) = true)).
    { destruct p as [s'|s'| |s' mp ep]; try discriminate.
      - destruct R as [-> ->]. cbn. auto.
      - destruct R as (-> & Vb & Eu & Ev). cbn [units sign valid_binary mantissa].
        auto. }
    destruct U as (Up & Sp & Vp & Evp).
    split; [exact Sp|]. split; [split; assumption|].
    intros y Hy. unfold distance. rewrite Up.
    destruct (N y Hy) as [N1 N2]. split; [exact N1|].
    intros Heq Hne. apply Evp. apply N2; assumption.
Qed.

Lemma round_half_even_div_nearest (a b : Z) :
  0 < b -> nearest_integer a b (round_half_even_div a b).
Proof.
  intros Hb. unfold round_half_even_div, nearest_integer.
  pose proof (Z.div_mod a b ltac:(lia)) as DM.
  pose proof (Z.mod_pos_bound a b Hb) as Hr.
  destruct (Z.compare_spec (2 * (a mod b)) b) as [E|L|G].
  - destruct (Z.even (a / b)) eqn:Ev.
    + split; [nia|intros _; exact Ev].
    + split; [nia|]. intros _. rewrite Z.even_add, Ev. reflexivity.
  - split; nia.
  - split; nia.
Qed.

(** [round(x, 2)], in the words of the specification. *)
Lemma double_round2_rounded (x p : float) :
  double_round2 x = Ok p -> rounded_to_2_decimals x p.
Proof.
  destruct x as [s|s| |s m e]; cbn [double_round2 rounded_to_2_decimals];
    try (intros H; injection H as <-; reflexivity).
  intros H. exists (hundredths m e).
  assert (Hn : match e with
               | Zneg q => nearest_integer (100 * Zpos m) (2 ^ Zpos q)
                                           (hundredths m e)
               | _ => nearest_integer (100 * Zpos m * 2 ^ e) 1 (hundredths m e)
               end /\ 0 <= hundredths m e).
  { unfold hundredths. destruct e as [|q|q].
    - rewrite Z.shiftl_mul_pow2 by lia. unfold nearest_integer.
      split; [split|]; lia.
    - rewrite Z.shiftl_mul_pow2 by lia. unfold nearest_integer.
      assert (0 < 2 ^ Zpos q) by (apply Z.pow_pos_nonneg; lia).
      split; [split|]; lia.
    - rewrite Z.pow_pos_fold.
      assert (Pq : 0 < 2 ^ Zpos q) by (apply Z.pow_pos_nonneg; lia).
      pose proof (round_half_even_div_nearest (Zpos m * 100) (2 ^ Zpos q) Pq)
        as Hr.
      replace (100 * Zpos m) with (Zpos m * 100) by ring.
      split; [exact Hr|].
      destruct Hr as [Hr _].
      destruct (Z_le_gt_dec 0 (round_half_even_div (Zpos m * 100) (2 ^ Zpos q)));
        [assumption|nia]. }
  destruct Hn as [Hn Hpos]. split; [exact Hn|].
  destruct (hundredths m e) as [|n|n]; try lia.
  - injection H as <-. split; [reflexivity|].
    split; [split; reflexivity|].
    intros y _. unfold distance. cbn [units mantissa]. split; [lia|].
    intros _ _. reflexivity.
  - destruct (is_finite (ratio2SF s n 100)) eqn:F; [|discriminate].
    injection H as <-.
    destruct (ratio2SF_nearest s n 100) as [_ N]. exact (N F).
Qed.

Local Open Scope nat_scope.

(** ** The report *)

Lemma bind_Ok (A B : Type) (m : result A) (f : A -> result B) b :
  bind m f = Ok b -> exists a, m = Ok a /\ f a = Ok b.
Proof. destruct m as [a|e]; simpl; [eauto | discriminate]. Qed.

(** The fields of the entry that the loop body builds for [db_id]. *)
Lemma database_entry_fields bdbs um ml tk db_id e :
  database_entry bdbs um ml tk db_id = Ok e ->
  database_id e = db_id /\
  truediv (get_num um db_id 0) (NInt MiB) = Ok (memory_used_mb e) /\
  truediv (get_num ml db_id 1) (NInt MiB) = Ok (total_memory_mb e) /\
  py_int (get_num tk db_id 0) = Ok (total_keys e) /\
  (if gt0 (NFloat (total_memory_mb e)) then
     exists q, float_div (memory_used_mb e) (total_memory_mb e) = Ok q /\
               round2 (NFloat (SFmul prec emax q (Z2SF 100)))
               = Ok (memory_usage_percentage e)
   else memory_usage_percentage e = NInt 0).
Proof.
  unfold database_entry. intros H.
  apply bind_Ok in H as (used & Eu & H).
  apply bind_Ok in H as (total & Et & H).
  apply bind_Ok in H as (tkeys & Ek & H).
  apply bind_Ok in H as (pct & Ep & H).
  apply bind_Ok in H as (rounded & Er & H).
  injection H as <-.
  cbn [database_id memory_used_mb total_memory_mb total_keys
       memory_usage_percentage].
  repeat split; try assumption.
  destruct (gt0 (NFloat total)).
  - apply bind_Ok in Ep as (q & Eq & Ep). injection Ep as <-.
    exists q. auto.
  - injection Ep as <-. simpl in Er. congruence.
Qed.

Lemma database_loop_ids bdbs um ml tk : forall items dbs,
  database_loop bdbs um ml tk items = Ok dbs ->
  map database_id dbs = map fst items.
Proof.
  induction items as [|[db_id v] items IH]; intros dbs H; simpl in H.
  - injection H as <-. reflexivity.
  - apply bind_Ok in H as (e & Ee & H).
    apply bind_Ok in H as (es & Ees & H). injection H as <-.
    apply database_entry_fields in Ee as [Eid _].
    simpl. rewrite Eid, (IH es Ees). reflexivity.
Qed.

Lemma database_loop_In bdbs um ml tk : forall items dbs e,
  database_loop bdbs um ml tk items = Ok dbs -> In e dbs ->
  database_entry bdbs um ml tk (database_id e) = Ok e.
Proof.
  induction items as [|[db_id v] items IH]; intros dbs e H Hin; simpl in H.
  - injection H as <-. contradiction.
  - apply bind_Ok in H as (e0 & Ee & H).
    apply bind_Ok in H as (es & Ees & H). injection H as <-.
    destruct Hin as [<-|Hin].
    + pose proof (database_entry_fields _ _ _ _ _ _ Ee) as [-> _]. exact Ee.
    + eapply IH; eassumption.
Qed.

(** C5: every entry of a report that the builder produces has a key of
    the used-memory table as its [database_id]; the ids of the entries are
    the keys of that table, in order, so an id that is only in the
    memory-limit table, the key-count table or the inventory is in no
    entry. *)
Theorem build_databases_ids_from_used_memory
  (bdbs_mapping : dict (dict value))
  (used_memory memory_limit total_keys_data : dict float)
  (database_list : list entry) :
  build_databases bdbs_mapping used_memory memory_limit total_keys_data
  = Ok database_list ->
  map database_id database_list = keys used_memory /\
  (forall e, In e database_list -> In (database_id e) (keys used_memory)) /\
  (forall db_id, ~ In db_id (keys used_memory) ->
                 ~ In db_id (map database_id database_list)).
Proof.
  unfold build_databases. intros H.
  apply database_loop_ids in H. split; [exact H|]. split.
  - intros e He. unfold keys. rewrite <- H. apply in_map. exact He.
  - intros db_id Hk. rewrite H. exact Hk.
Qed.

(** The same on the report that [main] prints: its entries are the keys
    of the table parsed for [bdb_used_memory]. *)
Lemma main_report_ids repr r rep :
  main repr r = Some rep ->
  exists text used_memory,
    fetch_metrics_data (metrics_response r) = Ok text /\
    parse_metrics text (lit "bdb_used_memory") = Ok used_memory /\
    map database_id (databases rep) = keys used_memory.
Proof.
  unfold main. destruct (poll repr r) as [out|e] eqn:E; [|discriminate].
  intros H. injection H as ->. unfold poll in E.
  apply bind_Ok in E as (info & _ & E).
  apply bind_Ok in E as (bdbs & _ & E).
  apply bind_Ok in E as (text & Et & E).
  apply bind_Ok in E as (um & Eu & E).
  apply bind_Ok in E as (ml & _ & E).
  apply bind_Ok in E as (tk & _ & E).
  apply bind_Ok in E as (dbs & Ed & E). injection E as <-.
  exists text, um. repeat split; try assumption.
  apply database_loop_ids in Ed. exact Ed.
Qed.

Lemma build_databases_ids_from_used_memory_witness :
  map database_id [entry_example] = keys used_memory_example /\
  (forall e, In e [entry_example] ->
             In (database_id e) (keys used_memory_example)) /\
  (forall db_id, ~ In db_id (keys used_memory_example) ->
                 ~ In db_id (map database_id [entry_example])).
Proof.
  apply (build_databases_ids_from_used_memory
           [(lit "1", [(lit "name", VStr (lit "mydb"));
                       (lit "shards_count", VInt 2)]);
            (lit "2", [(lit "name", VStr (lit "other"))])]
           used_memory_example
           (memory_limit_example ++ [(lit "2", Z2SF 5)])
           (total_keys_example ++ [(lit "3", Z2SF 7)])
           [entry_example]).
  vm_compute. reflexivity.
Defined.

Lemma gt0_not_zero f : gt0 (NFloat f) = true -> is_zero f = false.
Proof. destruct f as [s|s| |s m e]; simpl; try reflexivity. destruct s; discriminate. Qed.

Lemma default_limit_in_mb : truediv (NInt 1) (NInt MiB) = Ok one_byte_in_mb.
Proof. vm_compute. reflexivity. Qed.

(** C6: an entity of the used-memory table that the memory-limit table
    lacks gets [total_memory_mb = 1 / 1048576], the default of the lookup
    being one byte; and for every entity [memory_usage_percentage] is
    [memory_used_mb / total_memory_mb * 100] rounded to two decimals when
    [total_memory_mb > 0], and the integer 0 otherwise.  The quotient and
    the product are those of binary64; rounded to two decimals means: the
    double nearest to the multiple of one hundredth that is nearest to the
    exact value of the product, with ties to even. *)
Theorem build_databases_total_and_percentage
  (bdbs_mapping : dict (dict value))
  (used_memory memory_limit total_keys_data : dict float)
  (database_list : list entry) (e : entry) :
  build_databases bdbs_mapping used_memory memory_limit total_keys_data
  = Ok database_list ->
  In e database_list ->
  (dict_get (database_id e) memory_limit = None ->
   total_memory_mb e = one_byte_in_mb) /\
  (if gt0 (NFloat (total_memory_mb e)) then
     exists p,
       memory_usage_percentage e = NFloat p /\
       rounded_to_2_decimals
         (SFmul prec emax
                (SFdiv prec emax (memory_used_mb e) (total_memory_mb e))
                (Z2SF 100)) p
   else memory_usage_percentage e = NInt 0).
Proof.
  unfold build_databases. intros H Hin.
  pose proof (database_loop_In _ _ _ _ _ _ _ H Hin) as He.
  apply database_entry_fields in He as (_ & _ & Et & _ & Ep).
  split.
  - intros Hmiss. unfold get_num in Et. rewrite Hmiss in Et.
    rewrite default_limit_in_mb in Et. injection Et as <-. reflexivity.
  - destruct (gt0 (NFloat (total_memory_mb e))) eqn:Hgt; [|exact Ep].
    destruct Ep as (q & Eq & Er). unfold float_div in Eq.
    rewrite (gt0_not_zero _ Hgt) in Eq. injection Eq as <-.
    simpl in Er. apply bind_Ok in Er as (p & Ed & Er). injection Er as <-.
    exists p. split; [reflexivity|].
    apply double_round2_rounded. exact Ed.
Qed.

Lemma build_databases_total_and_percentage_witness :
  (exists p,
     memory_usage_percentage entry_third = NFloat p /\
     rounded_to_2_decimals
       (SFmul prec emax
              (SFdiv prec emax (memory_used_mb entry_third)
                     (total_memory_mb entry_third))
              (Z2SF 100)) p) /\
  memory_usage_percentage entry_zero_limit = NInt 0 /\
  total_memory_mb entry_third_no_limit = one_byte_in_mb.
Proof.
  assert (B : build_databases [] used_memory_thirds memory_limit_thirds []
              = Ok [entry_third; entry_zero_limit; entry_third_no_limit])
    by (vm_compute; reflexivity).
  split; [|split].
  - exact (proj2 (build_databases_total_and_percentage
                    [] used_memory_thirds memory_limit_thirds []
                    [entry_third; entry_zero_limit; entry_third_no_limit]
                    entry_third B (or_introl eq_refl))).
  - exact (proj2 (build_databases_total_and_percentage
                    [] used_memory_thirds memory_limit_thirds []
                    [entry_third; entry_zero_limit; entry_third_no_limit]
                    entry_zero_limit B (or_intror (or_introl eq_refl)))).
  - exact (proj1 (build_databases_total_and_percentage
                    [] used_memory_thirds memory_limit_thirds []
                    [entry_third; entry_zero_limit; entry_third_no_limit]
                    entry_third_no_limit B
                    (or_intror (or_intror (or_introl eq_refl))))
                 eq_refl).
Defined.

(** The percentage of [entry_third]: the double that [1 / 3 * 100] gives
    is not a multiple of one hundredth, and the rounding changes it. *)
Lemma percentage_third_is_rounded :
  SFmul prec emax
        (SFdiv prec emax (memory_used_mb entry_third)
               (total_memory_mb entry_third)) (Z2SF 100)
  = S754_finite false 4691249611844266 (-47) /\
  memory_usage_percentage entry_third
  = NFloat (S754_finite false 4690780486883082 (-47)) /\
  nearest_integer (100 * 4691249611844266) (2 ^ 47) 3333.
Proof.
  split; [vm_compute; reflexivity|]. split; [reflexivity|].
  unfold nearest_integer. split; [vm_compute; discriminate|].
  intros H. vm_compute in H. discriminate.
Qed.

(** C7: with used memory of 52428800 bytes, a limit of 104857600 bytes,
    1000.0 keys and the inventory of the single record with uid 1, name
    [mydb] and 2 shards, the builder produces exactly one entry: id ['1'],
    name [mydb], 2 shards, 50.0 MB used of 100.0 MB, 50.0 percent, 1000
    keys. *)
Theorem build_databases_end_to_end (repr : value -> str) :
  (bdbs_mapping <- fetch_bdbs_data repr (answered inventory_example) ;;
   build_databases bdbs_mapping used_memory_example memory_limit_example
                   total_keys_example)
  = Ok [entry_example].
Proof. vm_compute. reflexivity. Qed.

(** C8 fails in the code: for the empty license object, and for a license
    with a shards limit of 0, the summary is never returned.  The sentinel
    ['N/A'] is computed, and the log line that formats it with [.2f]
    raises [ValueError]. *)
Theorem fetch_license_data_zero_limit_raises :
  fetch_license_data (answered license_empty) = Raise ValueError /\
  fetch_license_data (answered license_zero_limit) = Raise ValueError.
Proof. split; vm_compute; reflexivity. Qed.

(** With a positive limit the summary is returned and the percentage is
    [(ram + flash) / limit * 100]: here [(3 + 2) / 10 * 100 = 50.0]. *)
Lemma fetch_license_data_half_used :
  fetch_license_data (answered license_half_used)
  = Ok {| cluster_name := NA; activation_date := NA; expiration_date := NA;
          expired := NA; shards_limit := VInt 10;
          ram_shards_in_use := VInt 3; flash_shards_in_use := VInt 2;
          percentage_shards_used := VFloat (Z2SF 50) |}.
Proof. vm_compute. reflexivity. Qed.

(** No license object makes [fetch_license_data] return the sentinel: a
    summary that is returned carries a float. *)
Lemma fetch_license_data_never_NA answer info :
  fetch_license_data answer = Ok info ->
  exists f, percentage_shards_used info = VFloat f.
Proof.
  unfold fetch_license_data. intros H.
  apply bind_Ok in H as (license_data & _ & H).
  do 7 (apply bind_Ok in H as (? & _ & H)).
  apply bind_Ok in H as (total & _ & H).
  apply bind_Ok in H as (positive & _ & H).
  apply bind_Ok in H as (pct & Ep & H).
  apply bind_Ok in H as (u & Ef & H). injection H as <-. simpl.
  destruct positive.
  - apply bind_Ok in Ep as (q & _ & Ep). injection Ep as <-. eauto.
  - injection Ep as <-. discriminate.
Qed.

(** ** The poll *)

Lemma main_None_of_poll repr r e : poll repr r = Raise e -> main repr r = None.
Proof. unfold main. intros ->. reflexivity. Qed.

Lemma raise_for_status_error r :
  (400 <= status_code r < 600)%Z -> raise_for_status r = Raise HTTPError.
Proof.
  intros [Hlo Hhi]. unfold raise_for_status.
  apply Z.leb_le in Hlo. apply Z.ltb_lt in Hhi. rewrite Hlo, Hhi.
  reflexivity.
Qed.

Lemma raise_for_status_other r :
  ~ (400 <= status_code r < 600)%Z -> raise_for_status r = Ok tt.
Proof.
  intros H. unfold raise_for_status.
  destruct (400 <=? status_code r)%Z eqn:Hlo; [|reflexivity].
  destruct (status_code r <? 600)%Z eqn:Hhi; [|reflexivity].
  apply Z.leb_le in Hlo. apply Z.ltb_lt in Hhi. exfalso. apply H. lia.
Qed.

Lemma get_json_response_failed answer :
  fetch_failed answer \/ undecodable answer ->
  exists e, get_json_response answer = Raise e.
Proof.
  unfold get_json_response.
  intros [[[e ->]|(r & -> & Hr)]|(r & e & -> & Hj)]; cbn [bind].
  - eauto.
  - rewrite (raise_for_status_error r Hr). cbn [bind]. eauto.
  - destruct (raise_for_status r) as [[]|e0]; cbn [bind]; eauto.
Qed.

Lemma fetch_metrics_data_failed answer :
  fetch_failed answer -> exists e, fetch_metrics_data answer = Raise e.
Proof.
  unfold fetch_metrics_data. intros [[e ->]|(r & -> & Hr)]; cbn [bind].
  - eauto.
  - rewrite (raise_for_status_error r Hr). cbn [bind]. eauto.
Qed.

Lemma fetch_license_data_of_fetch answer e :
  get_json_response answer = Raise e -> fetch_license_data answer = Raise e.
Proof. unfold fetch_license_data. intros ->. reflexivity. Qed.

Lemma fetch_bdbs_data_of_fetch repr answer e :
  get_json_response answer = Raise e -> fetch_bdbs_data repr answer = Raise e.
Proof. unfold fetch_bdbs_data. intros ->. reflexivity. Qed.

Lemma fetch_bdbs_data_of_json repr answer v :
  get_json_response answer = Ok v ->
  fetch_bdbs_data repr answer
  = (records <- py_iter v ;; index_bdbs repr records []).
Proof. unfold fetch_bdbs_data. intros ->. reflexivity. Qed.

Lemma poll_license_raise repr r e :
  fetch_license_data (license_response r) = Raise e -> poll repr r = Raise e.
Proof. unfold poll. intros ->. reflexivity. Qed.

Lemma poll_bdbs_raise repr r e :
  fetch_bdbs_data repr (bdbs_response r) = Raise e ->
  exists e', poll repr r = Raise e'.
Proof.
  unfold poll. intros H.
  destruct (fetch_license_data (license_response r)) as [info|e0]; simpl.
  - rewrite H. simpl. eauto.
  - eauto.
Qed.

Lemma poll_metrics_raise repr r e :
  fetch_metrics_data (metrics_response r) = Raise e ->
  exists e', poll repr r = Raise e'.
Proof.
  unfold poll. intros H.
  destruct (fetch_license_data (license_response r)) as [info|e0]; simpl;
    [|eauto].
  destruct (fetch_bdbs_data repr (bdbs_response r)) as [b|e1]; simpl;
    [|eauto].
  rewrite H. simpl. eauto.
Qed.

(** C9, as amended: when one of the three fetches fails for the code,
    that is when [requests.get] raises or the answer has a status from 400
    to 599, or when the body of the license or of the inventory answer is
    no JSON, [main] writes nothing to standard output.  An answer with
    any other status is no failure: its document, or its text, is taken
    whatever the status. *)
Theorem main_fetch_failure_no_output (repr : value -> str) (r : responses) :
  fetch_failed (license_response r) \/ fetch_failed (bdbs_response r)
  \/ fetch_failed (metrics_response r)
  \/ undecodable (license_response r) \/ undecodable (bdbs_response r) ->
  main repr r = None /\
  (forall a : response,
     ~ (400 <= status_code a < 600)%Z ->
     get_json_response (Ok a) = json a /\
     fetch_metrics_data (Ok a) = Ok (text a)).
Proof.
  intros H. split.
  - assert (Hp : exists e, poll repr r = Raise e).
    { destruct H as [H|[H|[H|[H|H]]]].
      - destruct (get_json_response_failed _ (or_introl H)) as [e He].
        exists e. apply poll_license_raise, fetch_license_data_of_fetch, He.
      - destruct (get_json_response_failed _ (or_introl H)) as [e He].
        apply (poll_bdbs_raise repr r e), fetch_bdbs_data_of_fetch, He.
      - destruct (fetch_metrics_data_failed _ H) as [e He].
        apply (poll_metrics_raise repr r e), He.
      - destruct (get_json_response_failed _ (or_intror H)) as [e He].
        exists e. apply poll_license_raise, fetch_license_data_of_fetch, He.
      - destruct (get_json_response_failed _ (or_intror H)) as [e He].
        apply (poll_bdbs_raise repr r e), fetch_bdbs_data_of_fetch, He. }
    destruct Hp as [e He]. eapply main_None_of_poll. exact He.
  - intros a Ha. unfold get_json_response, fetch_metrics_data. cbn [bind].
    rewrite (raise_for_status_other a Ha). split; reflexivity.
Qed.

Lemma main_fetch_failure_no_output_witness :
  main (fun _ => [])
       {| license_response := answered license_half_used;
          bdbs_response := answered inventory_example;
          metrics_response := answer_text 503 metrics_example |} = None /\
  (forall a : response,
     ~ (400 <= status_code a < 600)%Z ->
     get_json_response (Ok a) = json a /\
     fetch_metrics_data (Ok a) = Ok (text a)).
Proof.
  apply (main_fetch_failure_no_output
           (fun _ => [])
           {| license_response := answered license_half_used;
              bdbs_response := answered inventory_example;
              metrics_response := answer_text 503 metrics_example |}).
  right. right. left. right. eexists. split; [reflexivity|]. simpl. lia.
Defined.

(** C9, as stated, fails: the three answers have the status 300, which is
    not a 2xx status, and [main] prints the report all the same, since
    [raise_for_status] raises for 400..599 only. *)
Lemma main_prints_on_status_300 :
  main (fun _ => []) responses_status_300 = Some report_example
  /\ main (fun _ => []) responses_status_300 <> None.
Proof. split; [vm_compute; reflexivity | vm_compute; discriminate]. Qed.

(** ** The inventory index *)

Lemma index_bdbs_object repr fields records d :
  index_bdbs repr (VDict fields :: records) d
  = match dict_get (lit "uid") fields with
    | Some uid => index_bdbs repr records (dict_set (py_str repr uid) fields d)
    | None => Raise KeyError
    end.
Proof.
  cbn [index_bdbs py_getitem].
  destruct (dict_get (lit "uid") fields); reflexivity.
Qed.

Lemma index_bdbs_not_object repr bdb records d :
  ~ is_object bdb -> index_bdbs repr (bdb :: records) d = Raise TypeError.
Proof.
  intros H. destruct bdb; try reflexivity. exfalso. apply H. eexists.
  reflexivity.
Qed.

Lemma is_object_dec v : is_object v \/ ~ is_object v.
Proof.
  destruct v; try (right; intros [fields Hf]; discriminate).
  left. eexists. reflexivity.
Qed.

Lemma index_bdbs_missing_uid repr fields : forall records d,
  In (VDict fields) records ->
  dict_get (lit "uid") fields = None ->
  exists e, index_bdbs repr records d = Raise e.
Proof.
  induction records as [|bdb records IH]; intros d Hin Huid; [contradiction|].
  destruct Hin as [->|Hin].
  - rewrite index_bdbs_object, Huid. eauto.
  - destruct (is_object_dec bdb) as [[f ->]|Hno].
    + rewrite index_bdbs_object.
      destruct (dict_get (lit "uid") f); [apply IH; assumption | eauto].
    + rewrite (index_bdbs_not_object _ _ _ _ Hno). eauto.
Qed.

Lemma index_bdbs_missing_uid_KeyError repr fields : forall records d,
  In (VDict fields) records ->
  dict_get (lit "uid") fields = None ->
  (forall x, In x records -> is_object x) ->
  index_bdbs repr records d = Raise KeyError.
Proof.
  induction records as [|bdb records IH]; intros d Hin Huid Hobj;
    [contradiction|].
  destruct Hin as [->|Hin].
  - rewrite index_bdbs_object, Huid. reflexivity.
  - destruct (Hobj bdb) as [f ->]; [simpl; auto|].
    rewrite index_bdbs_object.
    destruct (dict_get (lit "uid") f); [|reflexivity].
    apply IH; try assumption. intros x Hx. apply Hobj. simpl. auto.
Qed.

(** C10: an inventory array with a record that lacks [uid] makes the
    construction of the index raise instead of skipping the record; the
    exception is [KeyError] when the records are objects; and [main] then
    writes no report. *)
Theorem missing_uid_aborts_poll
  (repr : value -> str) (records : list value) (fields : dict value)
  (r : responses) :
  In (VDict fields) records ->
  dict_get (lit "uid") fields = None ->
  get_json_response (bdbs_response r) = Ok (VList records) ->
  (exists e, fetch_bdbs_data repr (bdbs_response r) = Raise e) /\
  ((forall x, In x records -> is_object x) ->
   fetch_bdbs_data repr (bdbs_response r) = Raise KeyError) /\
  main repr r = None.
Proof.
  intros Hin Huid Hr.
  rewrite (fetch_bdbs_data_of_json repr _ _ Hr). cbn [py_iter bind].
  assert (H : exists e, index_bdbs repr records [] = Raise e)
    by (apply (index_bdbs_missing_uid repr fields); assumption).
  split; [exact H|]. split.
  - intros Hobj. apply (index_bdbs_missing_uid_KeyError repr fields);
      assumption.
  - destruct H as [e He].
    destruct (poll_bdbs_raise repr r e) as [e' He'].
    + rewrite (fetch_bdbs_data_of_json repr _ _ Hr). exact He.
    + eapply main_None_of_poll. exact He'.
Qed.

Lemma missing_uid_aborts_poll_witness :
  (exists e, fetch_bdbs_data (fun _ => [])
                             (answered (VList inventory_without_uid))
             = Raise e) /\
  ((forall x, In x inventory_without_uid -> is_object x) ->
   fetch_bdbs_data (fun _ => []) (answered (VList inventory_without_uid))
   = Raise KeyError) /\
  main (fun _ => [])
       {| license_response := answered license_half_used;
          bdbs_response := answered (VList inventory_without_uid);
          metrics_response := answered_text [] |} = None.
Proof.
  apply (missing_uid_aborts_poll
           (fun _ => []) inventory_without_uid
           [(lit "name", VStr (lit "orphan"))]
           {| license_response := answered license_half_used;
              bdbs_response := answered (VList inventory_without_uid);
              metrics_response := answered_text [] |}).
  - simpl. auto.
  - reflexivity.
  - reflexivity.
Defined.

(** ** Further properties of [parse_metrics] *)

Section DictKeys.
Variable V : Type.

Lemma dict_set_NoDup k (v : V) : forall d,
  NoDup (keys d) -> NoDup (keys (dict_set k v d)).
Proof.
  induction d as [|[k' v'] d IH]; simpl; intros H.
  - constructor; [simpl; tauto | constructor].
  - inversion H as [|x l Hnin Hnd]; subst.
    destruct (str_eqb k k') eqn:E; simpl.
    + constructor; assumption.
    + constructor; [|apply IH; exact Hnd].
      intros Hin. apply (keys_dict_set V k v d k') in Hin as [->|Hin].
      * rewrite str_eqb_refl in E. discriminate.
      * apply Hnin. exact Hin.
Qed.

Lemma dict_get_In k (v : V) : forall d,
  dict_get k d = Some v -> In k (keys d).
Proof.
  induction d as [|[k' v'] d IH]; simpl; [discriminate|].
  destruct (str_eqb k k') eqn:E.
  - apply str_eqb_eq in E. auto.
  - auto.
Qed.

Lemma In_dict_get k : forall (d : dict V),
  In k (keys d) -> exists v, dict_get k d = Some v.
Proof.
  induction d as [|[k' v'] d IH]; simpl; [contradiction|].
  destruct (str_eqb k k') eqn:E; [eauto|].
  intros [->|H]; [|auto]. rewrite str_eqb_refl in E. discriminate.
Qed.
End DictKeys.

Lemma dict_comp_NoDup : forall ms d t,
  dict_comp ms d = Ok t -> NoDup (keys d) -> NoDup (keys t).
Proof.
  induction ms as [|[k v] ms IH]; intros d t H Hd; simpl in H.
  - injection H as <-. exact Hd.
  - destruct (py_float v) as [f|e]; simpl in H; [|discriminate].
    apply (IH _ _ H). apply dict_set_NoDup. exact Hd.
Qed.

Lemma parse_metrics_key_digits text name t k :
  parse_metrics text name = Ok t -> In k (keys t) ->
  k <> [] /\ forallb digit k = true.
Proof.
  unfold parse_metrics. intros H Hin.
  apply (dict_comp_keys _ _ _ H) in Hin as [Hin|[]].
  apply in_map_iff in Hin as ([k' v] & <- & Hin).
  apply findall_groups in Hin as [Hk _]. exact Hk.
Qed.

(** X1: the keys of a table that [parse_metrics] returns are pairwise
    distinct, and each of them is a non-empty run of digits. *)
Theorem parse_metrics_keys_distinct_digits (text name : str) (t : dict float) :
  plain_name name = true ->
  parse_metrics text name = Ok t ->
  NoDup (keys t) /\
  (forall k, In k (keys t) -> k <> [] /\ forallb digit k = true).
Proof.
  intros _ H. split.
  - unfold parse_metrics in H. apply (dict_comp_NoDup _ _ _ H). constructor.
  - intros k. apply parse_metrics_key_digits with (text := text) (name := name).
    exact H.
Qed.

Lemma parse_metrics_keys_distinct_digits_witness :
  NoDup (keys [(lit "1", Z2SF 7)]) /\
  (forall k, In k (keys [(lit "1", Z2SF 7)]) ->
             k <> [] /\ forallb digit k = true).
Proof.
  apply (parse_metrics_keys_distinct_digits
           duplicate_comma_text (lit "m") [(lit "1", Z2SF 7)]).
  - reflexivity.
  - vm_compute. reflexivity.
Defined.

(** X2: a report that [main] prints lists no database id twice, even when
    the metrics text repeats an id, and every id in it is a non-empty run
    of digits. *)
Theorem main_report_ids_distinct
  (repr : value -> str) (r : responses) (rep : report) :
  main repr r = Some rep ->
  NoDup (map database_id (databases rep)) /\
  (forall e, In e (databases rep) ->
             database_id e <> [] /\ forallb digit (database_id e) = true).
Proof.
  intros H. apply main_report_ids in H as (text & um & _ & Hum & Hids).
  rewrite Hids. split.
  - unfold parse_metrics in Hum. apply (dict_comp_NoDup _ _ _ Hum).
    constructor.
  - intros e He. apply parse_metrics_key_digits
      with (text := text) (name := lit "bdb_used_memory") (t := um);
      [exact Hum|].
    rewrite <- Hids. apply in_map. exact He.
Qed.

(** *** Rounding never produces a NaN *)

Local Open Scope Z_scope.

Lemma shr_1_nonneg mrs : 0 <= shr_m mrs -> 0 <= shr_m (shr_1 mrs).
Proof.
  destruct mrs as [m r s]. simpl.
  destruct m as [|[p|p|]|[p|p|]]; simpl; intros H; lia.
Qed.

Lemma iter_pos_shr_1_nonneg p : forall mrs,
  0 <= shr_m mrs -> 0 <= shr_m (iter_pos shr_1 p mrs).
Proof.
  induction p as [p IH|p IH|]; intros mrs H; simpl.
  - apply IH, IH, shr_1_nonneg, H.
  - apply IH, IH, H.
  - apply shr_1_nonneg, H.
Qed.

Lemma shr_fexp_nonneg m e l :
  0 <= m -> 0 <= shr_m (fst (shr_fexp prec emax m e l)).
Proof.
  intros H. unfold shr_fexp, shr.
  assert (H0 : 0 <= shr_m (shr_record_of_loc m l))
    by (destruct l as [|[]]; exact H).
  destruct (fexp prec emax (Zdigits2 m + e) - e); simpl; try exact H0.
  apply iter_pos_shr_1_nonneg, H0.
Qed.

Lemma round_nearest_even_nonneg m l : 0 <= m -> 0 <= round_nearest_even m l.
Proof.
  intros H. destruct l as [|[]]; simpl; try lia.
  destruct (Z.even m); lia.
Qed.

Lemma binary_round_aux_not_nan s m e l :
  0 <= m -> binary_round_aux prec emax s m e l <> S754_nan.
Proof.
  intros H. unfold binary_round_aux.
  pose proof (shr_fexp_nonneg m e l H) as H1.
  destruct (shr_fexp prec emax m e l) as [mrs' e'] eqn:E1. simpl in H1.
  pose proof (shr_fexp_nonneg
                (round_nearest_even (shr_m mrs') (loc_of_shr_record mrs'))
                e' loc_Exact (round_nearest_even_nonneg _ _ H1)) as H2.
  destruct (shr_fexp prec emax
              (round_nearest_even (shr_m mrs') (loc_of_shr_record mrs'))
              e' loc_Exact) as [mrs'' e''].
  simpl in H2. destruct (shr_m mrs'') as [|p|p]; try discriminate.
  - destruct (e'' <=? emax - prec); discriminate.
  - lia.
Qed.

Lemma ratio2SF_not_nan s n d : ratio2SF s n d <> S754_nan.
Proof.
  unfold ratio2SF, SFdiv_core_binary.
  set (e' := Z.min _ _). set (m' := match _ with Z0 => _ | _ => _ end).
  assert (Hm : 0 <= m').
  { unfold m'. destruct (0 - 0 - e'); try lia. apply Z.shiftl_nonneg. lia. }
  pose proof (Z_div_mod m' (Zpos d) eq_refl) as Hq.
  destruct (Z.div_eucl m' (Zpos d)) as [q r].
  apply binary_round_aux_not_nan. destruct Hq as [Hq Hr]. nia.
Qed.

Lemma binary_round_not_nan s m e : binary_round prec emax s m e <> S754_nan.
Proof.
  unfold binary_round.
  destruct (shl_align m e (fexp prec emax (Zpos (digits2_pos m) + e)))
    as [mz ez].
  apply binary_round_aux_not_nan. lia.
Qed.

Lemma py_float_not_nan s f : py_float s = Ok f -> f <> S754_nan.
Proof.
  unfold py_float. destruct (take_sign s) as [neg r].
  destruct (span digit r) as [ip r1].
  destruct (match r1 with
            | [] => ([], r1)
            | c :: r' => if is_char "." c then span digit r' else ([], r1)
            end) as [fp r2].
  destruct (ip ++ fp) as [|c ds]; [discriminate|].
  destruct (exponent r2) as [e|]; [|discriminate].
  intros H. injection H as <-. unfold decimal2SF.
  destruct (decimal (c :: ds)); try discriminate.
  destruct (e - Z.of_nat (List.length fp));
    auto using ratio2SF_not_nan, binary_round_not_nan.
Qed.

Lemma dict_comp_values : forall ms d t k f,
  dict_comp ms d = Ok t -> dict_get k t = Some f ->
  dict_get k d = Some f \/ exists v, In (k, v) ms /\ py_float v = Ok f.
Proof.
  intros ms d t k f H Hget. pose proof (dict_comp_last k _ _ _ H) as Hl.
  destruct (last_value k ms) as [v|] eqn:E.
  - destruct Hl as (f' & Hf & Hg). right. exists v.
    split; [apply last_value_In; exact E | congruence].
  - left. congruence.
Qed.

(** X3: a table that [parse_metrics] returns holds no NaN: every value is
    the float of a matched token, and [float] of a token of the value
    class is a zero, a finite number or an infinity. *)
Theorem parse_metrics_values_not_nan
  (text name : str) (t : dict float) (k : str) (f : float) :
  plain_name name = true ->
  parse_metrics text name = Ok t ->
  dict_get k t = Some f ->
  f <> S754_nan /\
  exists v, In (k, v) (findall (pattern name) text) /\ py_float v = Ok f.
Proof.
  intros _ H Hget. unfold parse_metrics in H.
  destruct (dict_comp_values _ _ _ _ _ H Hget) as [Hd|(v & Hin & Hf)];
    [discriminate|].
  split; [eapply py_float_not_nan; exact Hf | eauto].
Qed.

Lemma parse_metrics_values_not_nan_witness :
  Z2SF 7 <> S754_nan /\
  exists v, In (lit "1", v) (findall (pattern (lit "m")) duplicate_comma_text)
            /\ py_float v = Ok (Z2SF 7).
Proof.
  apply (parse_metrics_values_not_nan
           duplicate_comma_text (lit "m") [(lit "1", Z2SF 7)] (lit "1")).
  - reflexivity.
  - vm_compute. reflexivity.
  - vm_compute. reflexivity.
Defined.

Local Open Scope nat_scope.

(** *** The shape of a match, with its groups *)

Section Greedy.
Variable R : Type.
Variable p : char -> bool.
Variable k : str -> option R.
Hypothesis k_total : forall s, k s <> None.

Lemma greedy_star_total : forall s, greedy_star p s k <> None.
Proof.
  induction s as [|c s IH]; simpl; [apply k_total|].
  destruct (p c); [|apply k_total].
  destruct (greedy_star p s k); [discriminate | contradiction].
Qed.

Lemma greedy_star_longest : forall s r,
  greedy_star p s k = Some r ->
  exists a s', s = a ++ s' /\ forallb p a = true /\ stops p s' = true /\
               k s' = Some r.
Proof.
  induction s as [|c s IH]; intros r H; simpl in H.
  - exists [], []. auto.
  - destruct (p c) eqn:Hc.
    + destruct (greedy_star p s k) as [r0|] eqn:E.
      * injection H as <-. destruct (IH r0 eq_refl) as (a & s' & -> & Ha & Hs & Hk).
        exists (c :: a), s'. simpl. rewrite Hc, Ha. auto.
      * exfalso. exact (greedy_star_total s E).
    + exists [], (c :: s). simpl. rewrite Hc. auto.
Qed.

Lemma greedy_plus_longest s r :
  greedy_plus p s k = Some r ->
  exists a s', s = a ++ s' /\ a <> [] /\ forallb p a = true /\
               stops p s' = true /\ k s' = Some r.
Proof.
  destruct s as [|c s]; simpl; [discriminate|].
  destruct (p c) eqn:Hc; [|discriminate]. intros H.
  apply greedy_star_longest in H as (a & s' & -> & Ha & Hs & Hk).
  exists (c :: a), s'. simpl. rewrite Hc, Ha.
  repeat split; auto. discriminate.
Qed.
End Greedy.

Lemma match_at_line_shape name s len caps :
  match_at (pattern name) s = Some (len, caps) ->
  exists A D B W V after,
    s = metric_line name A D B W V ++ after /\
    len = List.length (metric_line name A D B W V) /\
    caps = [(2, V); (1, D)] /\
    label_text A = true /\ (D <> [] /\ forallb digit D = true) /\
    label_text B = true /\ (W <> [] /\ forallb space W = true) /\
    (V <> [] /\ forallb value_char V = true) /\
    stops value_char after = true.
Proof.
  unfold match_at, pattern. cbn [seq run]. intros H.
  destruct (strip_prefix name s) as [s1|] eqn:E1; [|discriminate].
  apply strip_prefix_Some in E1.
  destruct (strip_prefix (lit "{") s1) as [s2|] eqn:E2; [|discriminate].
  apply strip_prefix_Some in E2.
  apply lazy_star_sound in H as (A & s3 & E3 & HA & H).
  destruct (strip_prefix bdb_key s3) as [s4|] eqn:E4; [|discriminate].
  apply strip_prefix_Some in E4.
  apply greedy_plus_sound in H as (D & s5 & E5 & HD & HDd & H).
  destruct (strip_prefix (dq :: lit ",") s5) as [s6|] eqn:E6; [|discriminate].
  apply strip_prefix_Some in E6.
  apply lazy_star_sound in H as (B & s7 & E7 & HB & H).
  destruct (strip_prefix (lit "}") s7) as [s8|] eqn:E8; [|discriminate].
  apply strip_prefix_Some in E8.
  apply greedy_plus_sound in H as (W & s9 & E9 & HW & HWs & H).
  apply greedy_plus_longest in H
    as (V & after & E10 & HV & HVv & Hstop & H); [|discriminate].
  injection H as <- <-.
  exists A, D, B, W, V, after.
  assert (Es : s = metric_line name A D B W V ++ after).
  { unfold metric_line. repeat rewrite <- app_assoc.
    rewrite E1, E2, E3, E4, E5, E6, E7, E8, E9, E10. reflexivity. }
  split; [exact Es|]. split.
  - rewrite Es at 1. apply length_app_sub.
  - subst s9 s4. rewrite !firstn_consumed. repeat split; assumption.
Qed.

(** X4: every match that [parse_metrics] takes lies on text of the shape
    [name{A bdb='D',B}W V]: the family name and the opening brace, label
    text without a line feed on both sides of the [bdb] label, a
    non-empty run of digits [D] between the quotes, a comma, the closing
    brace, white space [W] and a value token [V] that is the longest run
    of characters of [[\d.e+-]] there.  The groups are [D] and [V]. *)
Theorem parse_metrics_match_shape
  (name text : str) (i : nat) (caps : captures) :
  plain_name name = true ->
  In (i, caps) (finditer (pattern name) text 0 0) ->
  exists A D B W V after,
    skipn i text = metric_line name A D B W V ++ after /\
    group 1 caps = D /\ group 2 caps = V /\
    label_text A = true /\ (D <> [] /\ forallb digit D = true) /\
    label_text B = true /\ (W <> [] /\ forallb space W = true) /\
    (V <> [] /\ forallb value_char V = true) /\
    stops value_char after = true.
Proof.
  intros _ H. apply finditer_In in H as [_ [len H]].
  rewrite Nat.sub_0_r in H.
  apply match_at_line_shape in H
    as (A & D & B & W & V & after & Es & _ & -> & HA & HD & HB & HW & HV & Hst).
  exists A, D, B, W, V, after. repeat split; try tauto.
Qed.

Lemma parse_metrics_match_shape_witness :
  exists A D B W V after,
    skipn 12 suffix_text
    = metric_line (lit "bdb_used_memory") A D B W V ++ after /\
    group 1 [(2, lit "5"); (1, lit "1")] = D /\
    group 2 [(2, lit "5"); (1, lit "1")] = V /\
    label_text A = true /\ (D <> [] /\ forallb digit D = true) /\
    label_text B = true /\ (W <> [] /\ forallb space W = true) /\
    (V <> [] /\ forallb value_char V = true) /\
    stops value_char after = true.
Proof.
  apply (parse_metrics_match_shape
           (lit "bdb_used_memory") suffix_text 12
           [(2, lit "5"); (1, lit "1")]).
  - reflexivity.
  - vm_compute. left. reflexivity.
Defined.

Example main_example : main (fun _ => []) responses_example = Some report_example.
Proof. vm_compute. reflexivity. Qed.

(** X6: a text that is exactly one sample line [name{pre bdb='X',post}ws V]
    gives exactly the table with [X] mapped to [float(V)]. *)
Theorem parse_metrics_one_line_table (name pre X post ws V : str) (f : float) :
  plain_name name = true ->
  label_text pre = true -> bdb_label_free pre = true ->
  X <> [] -> forallb digit X = true ->
  label_tail post = true ->
  ws <> [] -> forallb space ws = true ->
  V <> [] -> forallb value_char V = true ->
  py_float V = Ok f ->
  parse_metrics (metric_line name pre X post ws V) name = Ok [(X, f)].
Proof. intros _. apply parse_metrics_single_line. Qed.

Lemma parse_metrics_one_line_table_witness :
  parse_metrics
    (metric_line (lit "redis_db_keys")
                 (label (lit "cluster") (lit "c") ++ lit ",") (lit "7")
                 (label (lit "role") (lit "master")) [nl] (lit "1e3"))
    (lit "redis_db_keys")
  = Ok [(lit "7", Z2SF 1000)].
Proof.
  apply (parse_metrics_one_line_table
           (lit "redis_db_keys")
           (label (lit "cluster") (lit "c") ++ lit ",") (lit "7")
           (label (lit "role") (lit "master")) [nl] (lit "1e3")
           (Z2SF 1000));
    solve [reflexivity | discriminate].
Defined.

(** ** Further properties of [fetch_license_data] *)

Lemma py_get_Ok d key default v :
  py_get d key default = Ok v ->
  exists fields, d = VDict fields /\ v = field_or fields key default.
Proof.
  destruct d; simpl; try discriminate. intros H. injection H as <-.
  eexists. split; reflexivity.
Qed.

Lemma fetch_license_data_Ok_inv answer info :
  fetch_license_data answer = Ok info ->
  exists fields total q,
    get_json_response answer = Ok (VDict fields) /\
    info = {| cluster_name := field_or fields (lit "cluster_name") NA;
              activation_date := field_or fields (lit "activation_date") NA;
              expiration_date := field_or fields (lit "expiration_date") NA;
              expired := field_or fields (lit "expired") NA;
              shards_limit := field_or fields (lit "shards_limit") (VInt 0);
              ram_shards_in_use :=
                field_or fields (lit "ram_shards_in_use") (VInt 0);
              flash_shards_in_use :=
                field_or fields (lit "flash_shards_in_use") (VInt 0);
              percentage_shards_used :=
                VFloat (SFmul prec emax q (Z2SF 100)) |} /\
    py_add (ram_shards_in_use info) (flash_shards_in_use info) = Ok total /\
    py_gt0 (shards_limit info) = Ok true /\
    py_truediv total (shards_limit info) = Ok q.
Proof.
  unfold fetch_license_data. intros H.
  apply bind_Ok in H as (license_data & Er & H).
  apply bind_Ok in H as (v1 & E1 & H).
  apply bind_Ok in H as (v2 & E2 & H).
  apply bind_Ok in H as (v3 & E3 & H).
  apply bind_Ok in H as (v4 & E4 & H).
  apply bind_Ok in H as (v5 & E5 & H).
  apply bind_Ok in H as (v6 & E6 & H).
  apply bind_Ok in H as (v7 & E7 & H).
  apply bind_Ok in H as (total & Et & H).
  apply bind_Ok in H as (positive & Eg & H).
  apply bind_Ok in H as (pct & Ep & H).
  apply bind_Ok in H as (u & Ef & H). injection H as <-.
  apply py_get_Ok in E1 as (fields & -> & ->).
  apply py_get_Ok in E2 as (? & [= <-] & ->).
  apply py_get_Ok in E3 as (? & [= <-] & ->).
  apply py_get_Ok in E4 as (? & [= <-] & ->).
  apply py_get_Ok in E5 as (? & [= <-] & ->).
  apply py_get_Ok in E6 as (? & [= <-] & ->).
  apply py_get_Ok in E7 as (? & [= <-] & ->).
  destruct positive.
  - apply bind_Ok in Ep as (q & Eq & Ep). injection Ep as <-.
    exists fields, total, q. cbn [shards_limit ram_shards_in_use
                                  flash_shards_in_use]. auto.
  - injection Ep as <-. discriminate.
Qed.

(** X7: whenever [fetch_license_data] returns, the answer was a JSON
    object, the shards limit compares greater than 0, the seven copied
    fields are the values of the object or their defaults (['N/A'] and
    0), and [percentage_shards_used] is the float
    [(ram + flash) / limit * 100]; the sentinel ['N/A'] is never
    returned. *)
Theorem fetch_license_data_returns (answer : result response)
        (info : license_info) :
  fetch_license_data answer = Ok info ->
  exists fields total q,
    get_json_response answer = Ok (VDict fields) /\
    info = {| cluster_name := field_or fields (lit "cluster_name") NA;
              activation_date := field_or fields (lit "activation_date") NA;
              expiration_date := field_or fields (lit "expiration_date") NA;
              expired := field_or fields (lit "expired") NA;
              shards_limit := field_or fields (lit "shards_limit") (VInt 0);
              ram_shards_in_use :=
                field_or fields (lit "ram_shards_in_use") (VInt 0);
              flash_shards_in_use :=
                field_or fields (lit "flash_shards_in_use") (VInt 0);
              percentage_shards_used :=
                VFloat (SFmul prec emax q (Z2SF 100)) |} /\
    py_add (ram_shards_in_use info) (flash_shards_in_use info) = Ok total /\
    py_gt0 (shards_limit info) = Ok true /\
    py_truediv total (shards_limit info) = Ok q.
Proof. apply fetch_license_data_Ok_inv. Qed.

Lemma fetch_license_data_returns_witness :
  exists fields total q,
    get_json_response (answered license_half_used) = Ok (VDict fields) /\
    license report_example
    = {| cluster_name := field_or fields (lit "cluster_name") NA;
         activation_date := field_or fields (lit "activation_date") NA;
         expiration_date := field_or fields (lit "expiration_date") NA;
         expired := field_or fields (lit "expired") NA;
         shards_limit := field_or fields (lit "shards_limit") (VInt 0);
         ram_shards_in_use :=
           field_or fields (lit "ram_shards_in_use") (VInt 0);
         flash_shards_in_use :=
           field_or fields (lit "flash_shards_in_use") (VInt 0);
         percentage_shards_used :=
           VFloat (SFmul prec emax q (Z2SF 100)) |} /\
    py_add (ram_shards_in_use (license report_example))
           (flash_shards_in_use (license report_example)) = Ok total /\
    py_gt0 (shards_limit (license report_example)) = Ok true /\
    py_truediv total (shards_limit (license report_example)) = Ok q.
Proof.
  apply (fetch_license_data_returns
           (answered license_half_used) (license report_example)).
  vm_compute. reflexivity.
Defined.

(** X8: for a license object whose shards limit is a positive integer and
    whose two usage counts are integers (present or defaulted to 0),
    [fetch_license_data] returns, with the percentage
    [(ram + flash) / limit * 100] computed by integer true division, as
    long as that quotient is in the range of a double. *)
Theorem fetch_license_data_positive_limit
  (answer : result response) (fields : dict value) (limit ram flash : Z)
  (q : float) :
  get_json_response answer = Ok (VDict fields) ->
  field_or fields (lit "shards_limit") (VInt 0) = VInt limit ->
  field_or fields (lit "ram_shards_in_use") (VInt 0) = VInt ram ->
  field_or fields (lit "flash_shards_in_use") (VInt 0) = VInt flash ->
  (0 < limit)%Z ->
  int_true_divide (ram + flash) limit = Ok q ->
  exists info,
    fetch_license_data answer = Ok info /\
    percentage_shards_used info = VFloat (SFmul prec emax q (Z2SF 100)) /\
    shards_limit info = VInt limit /\
    ram_shards_in_use info = VInt ram /\
    flash_shards_in_use info = VInt flash.
Proof.
  intros Ha Hl Hr Hf Hpos Hq.
  unfold fetch_license_data. rewrite Ha. unfold py_get.
  cbn [bind]. fold (field_or fields (lit "shards_limit") (VInt 0)).
  fold (field_or fields (lit "ram_shards_in_use") (VInt 0)).
  fold (field_or fields (lit "flash_shards_in_use") (VInt 0)).
  rewrite Hl, Hr, Hf. cbn [py_add as_num bind py_gt0 gt0].
  apply Z.ltb_lt in Hpos. rewrite Hpos.
  cbn [py_truediv as_num truediv]. rewrite Hq.
  cbn [bind format_2f as_num to_float]. eexists. split; [reflexivity|].
  cbn [percentage_shards_used shards_limit ram_shards_in_use
       flash_shards_in_use]. auto.
Qed.

Lemma fetch_license_data_positive_limit_witness :
  exists info,
    fetch_license_data (answered license_half_used) = Ok info /\
    percentage_shards_used info
    = VFloat (SFmul prec emax (ratio2SF false 1 2) (Z2SF 100)) /\
    shards_limit info = VInt 10 /\
    ram_shards_in_use info = VInt 3 /\
    flash_shards_in_use info = VInt 2.
Proof.
  apply (fetch_license_data_positive_limit
           (answered license_half_used)
           [(lit "shards_limit", VInt 10); (lit "ram_shards_in_use", VInt 3);
            (lit "flash_shards_in_use", VInt 2)] 10 3 2 (ratio2SF false 1 2));
    solve [reflexivity | vm_compute; reflexivity].
Defined.

(** ** Further properties of [fetch_bdbs_data] *)

Lemma has_uid_inv v :
  has_uid v = true ->
  exists fields uid, v = VDict fields /\ dict_get (lit "uid") fields = Some uid.
Proof.
  destruct v; cbn [has_uid]; try discriminate.
  destruct (dict_get (lit "uid") d) eqn:E; [eauto | discriminate].
Qed.

Lemma index_bdbs_Ok_iff repr : forall records d,
  (exists m, index_bdbs repr records d = Ok m)
  <-> forallb has_uid records = true.
Proof.
  induction records as [|bdb records IH]; intros d.
  - simpl. split; eauto.
  - cbn [forallb]. rewrite andb_true_iff. destruct (is_object_dec bdb)
      as [[fields ->]|Hno].
    + rewrite index_bdbs_object. cbn [has_uid].
      destruct (dict_get (lit "uid") fields) as [uid|].
      * rewrite IH. tauto.
      * split; [intros [m H]; discriminate | intros [H _]; discriminate].
    + rewrite (index_bdbs_not_object _ _ _ _ Hno). split.
      * intros [m H]. discriminate.
      * intros [H _]. apply has_uid_inv in H as (f & u & -> & _).
        exfalso. apply Hno. eexists. reflexivity.
Qed.

(** X9: on an inventory array [fetch_bdbs_data] returns exactly when every
    record is an object with the key [uid]; one record that is not aborts
    the whole index. *)
Theorem fetch_bdbs_data_returns_iff (repr : value -> str)
        (answer : result response) (records : list value) :
  get_json_response answer = Ok (VList records) ->
  (exists m, fetch_bdbs_data repr answer = Ok m)
  <-> forallb has_uid records = true.
Proof.
  intros Ha. rewrite (fetch_bdbs_data_of_json repr _ _ Ha).
  apply index_bdbs_Ok_iff.
Qed.

Lemma index_bdbs_lookup repr k : forall records d m,
  index_bdbs repr records d = Ok m ->
  dict_get k m = match last_record repr k records with
                 | Some fields => Some fields
                 | None => dict_get k d
                 end.
Proof.
  induction records as [|bdb records IH]; intros d m H.
  - simpl in H. injection H as <-. reflexivity.
  - destruct (is_object_dec bdb) as [[fields ->]|Hno].
    + rewrite index_bdbs_object in H. cbn [last_record].
      destruct (dict_get (lit "uid") fields) as [uid|]; [|discriminate].
      rewrite (IH _ _ H).
      destruct (last_record repr k records); [reflexivity|].
      destruct (str_eqb k (py_str repr uid)) eqn:E.
      * apply str_eqb_eq in E. subst k. apply dict_get_set_same.
      * apply dict_get_set_other. apply str_eqb_neq. exact E.
    + rewrite (index_bdbs_not_object _ _ _ _ Hno) in H. discriminate.
Qed.

(** X10: in the index that [fetch_bdbs_data] returns, the entry under a
    key is the last record of the array whose [str(uid)] is that key, and
    a key that is the [str(uid)] of no record is absent: records are filed
    under their own uid, and of two records with one uid the later one
    wins. *)
Theorem fetch_bdbs_data_lookup (repr : value -> str)
        (answer : result response) (records : list value)
        (m : dict (dict value)) (k : str) :
  get_json_response answer = Ok (VList records) ->
  fetch_bdbs_data repr answer = Ok m ->
  dict_get k m = last_record repr k records.
Proof.
  intros Ha H. rewrite (fetch_bdbs_data_of_json repr _ _ Ha) in H.
  cbn [bind py_iter] in H.
  rewrite (index_bdbs_lookup repr k _ _ _ H).
  destruct (last_record repr k records); reflexivity.
Qed.

Lemma fetch_bdbs_data_lookup_witness :
  dict_get (lit "1")
           [(lit "1", [(lit "uid", VInt 1); (lit "name", VStr (lit "new"))])]
  = last_record (fun _ => []) (lit "1")
      [VDict [(lit "uid", VInt 1); (lit "name", VStr (lit "old"))];
       VDict [(lit "uid", VInt 1); (lit "name", VStr (lit "new"))]].
Proof.
  apply (fetch_bdbs_data_lookup
           (fun _ => [])
           (answered
              (VList
                 [VDict [(lit "uid", VInt 1); (lit "name", VStr (lit "old"))];
                  VDict [(lit "uid", VInt 1);
                         (lit "name", VStr (lit "new"))]]))
           [VDict [(lit "uid", VInt 1); (lit "name", VStr (lit "old"))];
            VDict [(lit "uid", VInt 1); (lit "name", VStr (lit "new"))]]
           [(lit "1", [(lit "uid", VInt 1); (lit "name", VStr (lit "new"))])]
           (lit "1")).
  - reflexivity.
  - vm_compute. reflexivity.
Defined.

Lemma fetch_bdbs_data_returns_iff_witness :
  exists m, fetch_bdbs_data (fun _ => []) (answered inventory_example) = Ok m.
Proof.
  apply (proj2 (fetch_bdbs_data_returns_iff
                  (fun _ => []) (answered inventory_example)
                  [VDict [(lit "uid", VInt 1); (lit "name", VStr (lit "mydb"));
                          (lit "shards_count", VInt 2)]] eq_refl)).
  reflexivity.
Defined.

(** X11: an inventory answer that is not an array is accepted only when it
    is the empty object or the empty string, which give the empty index;
    any other object or string, and [null], a boolean or a number, make
    [fetch_bdbs_data] raise [TypeError]. *)
Theorem fetch_bdbs_data_not_array (repr : value -> str)
        (answer : result response) (v : value) :
  get_json_response answer = Ok v ->
  (forall records, v <> VList records) ->
  (v = VDict [] \/ v = VStr [] -> fetch_bdbs_data repr answer = Ok []) /\
  (v <> VDict [] -> v <> VStr [] ->
   fetch_bdbs_data repr answer = Raise TypeError).
Proof.
  intros Ha Hl. rewrite (fetch_bdbs_data_of_json repr _ _ Ha). split.
  - intros [->| ->]; reflexivity.
  - intros Hd Hs. destruct v as [| | | |s|l|d]; try reflexivity.
    + destruct s; [congruence | reflexivity].
    + exfalso. apply (Hl l). reflexivity.
    + destruct d as [|[k x] d]; [congruence | reflexivity].
Qed.

Lemma fetch_bdbs_data_not_array_witness :
  (VDict [(lit "error", VStr (lit "unauthorized"))] = VDict []
   \/ VDict [(lit "error", VStr (lit "unauthorized"))] = VStr [] ->
   fetch_bdbs_data (fun _ => [])
     (answered (VDict [(lit "error", VStr (lit "unauthorized"))])) = Ok [])
  /\
  (VDict [(lit "error", VStr (lit "unauthorized"))] <> VDict [] ->
   VDict [(lit "error", VStr (lit "unauthorized"))] <> VStr [] ->
   fetch_bdbs_data (fun _ => [])
     (answered (VDict [(lit "error", VStr (lit "unauthorized"))]))
   = Raise TypeError).
Proof.
  apply (fetch_bdbs_data_not_array
           (fun _ => [])
           (answered (VDict [(lit "error", VStr (lit "unauthorized"))]))
           (VDict [(lit "error", VStr (lit "unauthorized"))])).
  - reflexivity.
  - intros records. discriminate.
Defined.

(** ** Further properties of the report *)

Lemma truediv_MiB (x : num) :
  (exists u, x = NFloat u) \/ x = NInt 0 \/ x = NInt 1 ->
  exists f, truediv x (NInt MiB) = Ok f /\
            (forall u, x = NFloat u -> f = SFdiv prec emax u (Z2SF MiB)).
Proof.
  intros [[u ->]|[->| ->]].
  - exists (SFdiv prec emax u (Z2SF MiB)). split; [reflexivity|].
    intros u' H. injection H as <-. reflexivity.
  - eexists. split; [vm_compute; reflexivity | discriminate].
  - eexists. split; [vm_compute; reflexivity | discriminate].
Qed.

Lemma get_num_cases table db_id default :
  (exists u, dict_get db_id table = Some u /\
             get_num table db_id default = NFloat u) \/
  (dict_get db_id table = None /\ get_num table db_id default = NInt default).
Proof.
  unfold get_num. destruct (dict_get db_id table); eauto.
Qed.

Lemma py_int_raise x e :
  py_int x = Raise e -> e = OverflowError \/ e = ValueError.
Proof.
  destruct x as [z|[s|s| |s m ex]]; simpl; intros H; try discriminate;
    injection H as <-; auto.
Qed.

Lemma round2_raise x e : round2 x = Raise e -> e = OverflowError.
Proof.
  destruct x as [z|f]; simpl; [discriminate|].
  destruct f as [s|s| |s m ex]; simpl; try discriminate.
  destruct (hundredths m ex); simpl; try discriminate.
  destruct (is_finite (ratio2SF s p 100)); simpl; [discriminate|].
  intros H. injection H as <-. reflexivity.
Qed.

Lemma database_entry_raise bdbs um ml tk db_id e :
  database_entry bdbs um ml tk db_id = Raise e ->
  e = OverflowError \/ e = ValueError.
Proof.
  unfold database_entry.
  destruct (truediv_MiB (get_num um db_id 0)) as (used & -> & _).
  { unfold get_num. destruct (dict_get db_id um); eauto. }
  destruct (truediv_MiB (get_num ml db_id 1)) as (total & -> & _).
  { unfold get_num. destruct (dict_get db_id ml); eauto. }
  cbn [bind].
  destruct (py_int (get_num tk db_id 0)) as [n|e0] eqn:Ei; cbn [bind].
  - destruct (gt0 (NFloat total)) eqn:Hgt.
    + unfold float_div. rewrite (gt0_not_zero _ Hgt). cbn [bind].
      destruct (round2 (NFloat (SFmul prec emax (SFdiv prec emax used total)
                                      (Z2SF 100)))) as [p|e1] eqn:Er;
        cbn [bind]; [discriminate|].
      intros H. injection H as <-. left. eapply round2_raise. exact Er.
    + cbn [bind round2]. discriminate.
  - intros H. injection H as <-. eapply py_int_raise. exact Ei.
Qed.

Lemma database_loop_raise bdbs um ml tk : forall items e,
  database_loop bdbs um ml tk items = Raise e ->
  exists db_id, In db_id (map fst items) /\
                database_entry bdbs um ml tk db_id = Raise e.
Proof.
  induction items as [|[db_id v] items IH]; intros e H; simpl in H.
  - discriminate.
  - destruct (database_entry bdbs um ml tk db_id) as [x|e0] eqn:Ee;
      cbn [bind] in H.
    + destruct (database_loop bdbs um ml tk items) as [xs|e1] eqn:El;
        cbn [bind] in H; [discriminate|].
      injection H as <-. destruct (IH e1 eq_refl) as (k & Hin & Hk).
      exists k. simpl. auto.
    + injection H as <-. exists db_id. simpl. auto.
Qed.

(** X12: whatever the tables hold, building the entries never divides by
    zero: the only exceptions of the loop are the [OverflowError] and the
    [ValueError] of [int] on an infinite or NaN key count, and the
    [OverflowError] of [round]. *)
Theorem build_databases_no_zero_division
  (bdbs_mapping : dict (dict value))
  (used_memory memory_limit total_keys_data : dict float) (e : exn) :
  build_databases bdbs_mapping used_memory memory_limit total_keys_data
  = Raise e ->
  e = OverflowError \/ e = ValueError.
Proof.
  unfold build_databases. intros H.
  apply database_loop_raise in H as (db_id & _ & H).
  eapply database_entry_raise. exact H.
Qed.

Lemma build_databases_no_zero_division_witness :
  OverflowError = OverflowError \/ OverflowError = ValueError.
Proof.
  apply (build_databases_no_zero_division
           [] used_memory_example [(lit "1", S754_zero false)]
           total_keys_infinite OverflowError).
  vm_compute. reflexivity.
Defined.

Lemma database_entry_names bdbs um ml tk db_id e :
  database_entry bdbs um ml tk db_id = Ok e ->
  bdb_name e = bdb_field bdbs db_id (lit "name") /\
  shards_count e = bdb_field bdbs db_id (lit "shards_count").
Proof.
  unfold database_entry. intros H.
  apply bind_Ok in H as (used & _ & H).
  apply bind_Ok in H as (total & _ & H).
  apply bind_Ok in H as (tkeys & _ & H).
  apply bind_Ok in H as (pct & _ & H).
  apply bind_Ok in H as (rounded & _ & H).
  injection H as <-. split; reflexivity.
Qed.

(** X13: in every entry, [memory_used_mb] is the used-memory sample of the
    entity divided by 1048576 in binary64 (the default 0 of that lookup is
    never used), [total_memory_mb] is the memory-limit sample divided by
    1048576 when the entity has one, and [total_keys] is 0 when the entity
    has no key-count sample. *)
Theorem build_databases_memory_fields
  (bdbs_mapping : dict (dict value))
  (used_memory memory_limit total_keys_data : dict float)
  (database_list : list entry) (e : entry) :
  build_databases bdbs_mapping used_memory memory_limit total_keys_data
  = Ok database_list ->
  In e database_list ->
  (exists used, dict_get (database_id e) used_memory = Some used /\
                memory_used_mb e = SFdiv prec emax used (Z2SF MiB)) /\
  (forall limit, dict_get (database_id e) memory_limit = Some limit ->
                 total_memory_mb e = SFdiv prec emax limit (Z2SF MiB)) /\
  (dict_get (database_id e) total_keys_data = None -> total_keys e = 0%Z).
Proof.
  unfold build_databases. intros H Hin.
  pose proof (database_loop_ids _ _ _ _ _ _ H) as Hids.
  pose proof (database_loop_In _ _ _ _ _ _ _ H Hin) as He.
  apply database_entry_fields in He as (_ & Eu & Et & Ek & _).
  split; [|split].
  - assert (Hk : In (database_id e) (keys used_memory)).
    { unfold keys. rewrite <- Hids. apply in_map. exact Hin. }
    apply In_dict_get in Hk as [used Hu]. exists used. split; [exact Hu|].
    unfold get_num in Eu. rewrite Hu in Eu.
    destruct (truediv_MiB (NFloat used)) as (f & Ef & Hf); [eauto|].
    rewrite Ef in Eu. injection Eu as <-. apply Hf. reflexivity.
  - intros limit Hl. unfold get_num in Et. rewrite Hl in Et.
    destruct (truediv_MiB (NFloat limit)) as (f & Ef & Hf); [eauto|].
    rewrite Ef in Et. injection Et as <-. apply Hf. reflexivity.
  - intros Hn. unfold get_num in Ek. rewrite Hn in Ek. simpl in Ek.
    congruence.
Qed.

Lemma build_databases_memory_fields_witness :
  (exists used,
     dict_get (database_id entry_no_limit) used_memory_example = Some used /\
     memory_used_mb entry_no_limit = SFdiv prec emax used (Z2SF MiB)) /\
  (forall limit,
     dict_get (database_id entry_no_limit) (@nil (str * float)) = Some limit ->
     total_memory_mb entry_no_limit = SFdiv prec emax limit (Z2SF MiB)) /\
  (dict_get (database_id entry_no_limit) (@nil (str * float)) = None ->
   total_keys entry_no_limit = 0%Z).
Proof.
  apply (build_databases_memory_fields
           [] used_memory_example [] [] [entry_no_limit] entry_no_limit).
  - vm_compute. reflexivity.
  - simpl. auto.
Defined.

(** X14: the descriptive fields of an entry come from the inventory record
    filed under the entity-id: its [name] and [shards_count] when the
    record has them, and ['N/A'] for a field that the record lacks or
    when the inventory has no record for the id. *)
Theorem build_databases_inventory_join
  (bdbs_mapping : dict (dict value))
  (used_memory memory_limit total_keys_data : dict float)
  (database_list : list entry) (e : entry) :
  build_databases bdbs_mapping used_memory memory_limit total_keys_data
  = Ok database_list ->
  In e database_list ->
  (dict_get (database_id e) bdbs_mapping = None ->
   bdb_name e = NA /\ shards_count e = NA) /\
  (forall fields, dict_get (database_id e) bdbs_mapping = Some fields ->
     bdb_name e = field_or fields (lit "name") NA /\
     shards_count e = field_or fields (lit "shards_count") NA).
Proof.
  unfold build_databases. intros H Hin.
  pose proof (database_loop_In _ _ _ _ _ _ _ H Hin) as He.
  apply database_entry_names in He as [-> ->]. unfold bdb_field. split.
  - intros ->. split; reflexivity.
  - intros fields ->. split; reflexivity.
Qed.

Lemma build_databases_inventory_join_witness :
  (dict_get (database_id entry_example)
            [(lit "1", [(lit "uid", VInt 1); (lit "name", VStr (lit "mydb"));
                        (lit "shards_count", VInt 2)])] = None ->
   bdb_name entry_example = NA /\ shards_count entry_example = NA) /\
  (forall fields,
     dict_get (database_id entry_example)
              [(lit "1", [(lit "uid", VInt 1); (lit "name", VStr (lit "mydb"));
                          (lit "shards_count", VInt 2)])] = Some fields ->
     bdb_name entry_example = field_or fields (lit "name") NA /\
     shards_count entry_example = field_or fields (lit "shards_count") NA).
Proof.
  apply (build_databases_inventory_join
           [(lit "1", [(lit "uid", VInt 1); (lit "name", VStr (lit "mydb"));
                       (lit "shards_count", VInt 2)])]
           used_memory_example memory_limit_example total_keys_example
           [entry_example] entry_example).
  - vm_compute. reflexivity.
  - simpl. auto.
Defined.

(** X15: a key-count sample that is infinite or NaN, for an entity of the
    used-memory table, makes the builder raise: [int] cannot convert it,
    and no entry at all is produced. *)
Theorem build_databases_infinite_key_count
  (bdbs_mapping : dict (dict value))
  (used_memory memory_limit total_keys_data : dict float)
  (db_id : str) (count : float) :
  In db_id (keys used_memory) ->
  dict_get db_id total_keys_data = Some count ->
  is_finite count = false ->
  exists e, build_databases bdbs_mapping used_memory memory_limit
                            total_keys_data = Raise e.
Proof.
  intros Hin Hc Hinf.
  destruct (build_databases bdbs_mapping used_memory memory_limit
                            total_keys_data) as [dbs|e] eqn:E; [|eauto].
  exfalso. unfold build_databases in E.
  pose proof (database_loop_ids _ _ _ _ _ _ E) as Hids.
  unfold keys in Hin. rewrite <- Hids in Hin.
  apply in_map_iff in Hin as (x & <- & Hx).
  pose proof (database_loop_In _ _ _ _ _ _ _ E Hx) as He.
  apply database_entry_fields in He as (_ & _ & _ & Ek & _).
  unfold get_num in Ek. rewrite Hc in Ek.
  destruct count; simpl in Ek; discriminate.
Qed.

Lemma build_databases_infinite_key_count_witness :
  exists e, build_databases [] used_memory_example memory_limit_example
                            total_keys_infinite = Raise e.
Proof.
  apply (build_databases_infinite_key_count
           [] used_memory_example memory_limit_example total_keys_infinite
           (lit "1") (S754_infinity false)).
  - simpl. auto.
  - reflexivity.
  - reflexivity.
Defined.

(** ** Further properties of [main] *)

Lemma main_Some_license repr r rep :
  main repr r = Some rep ->
  fetch_license_data (license_response r) = Ok (license rep).
Proof.
  unfold main. destruct (poll repr r) as [out|e] eqn:E; [|discriminate].
  intros H. injection H as ->. unfold poll in E.
  destruct (fetch_license_data (license_response r)) as [info|e];
    [|discriminate].
  cbn [bind] in E.
  apply bind_Ok in E as (bdbs & _ & E).
  apply bind_Ok in E as (text & _ & E).
  apply bind_Ok in E as (um & _ & E).
  apply bind_Ok in E as (ml & _ & E).
  apply bind_Ok in E as (tk & _ & E).
  apply bind_Ok in E as (dbs & _ & E). injection E as <-. reflexivity.
Qed.

(** X16: a report is printed only for a license whose shards limit
    compares greater than 0, and its [percentage_shards_used] is then a
    float: with a limit of 0, absent or negative, [main] prints nothing,
    and no printed report carries the sentinel ['N/A'] there. *)
Theorem main_report_needs_positive_limit
  (repr : value -> str) (r : responses) (rep : report) :
  main repr r = Some rep ->
  py_gt0 (shards_limit (license rep)) = Ok true /\
  (exists f, percentage_shards_used (license rep) = VFloat f) /\
  percentage_shards_used (license rep) <> NA.
Proof.
  intros H. apply main_Some_license in H.
  apply fetch_license_data_Ok_inv in H
    as (fields & total & q & _ & Hinfo & _ & Hgt & _).
  split; [exact Hgt|]. rewrite Hinfo. cbn [percentage_shards_used].
  split; [eauto | discriminate].
Qed.

Lemma main_report_needs_positive_limit_witness :
  py_gt0 (shards_limit (license report_example)) = Ok true /\
  (exists f, percentage_shards_used (license report_example) = VFloat f) /\
  percentage_shards_used (license report_example) <> NA.
Proof.
  apply (main_report_needs_positive_limit
           (fun _ => []) responses_example report_example).
  vm_compute. reflexivity.
Defined.

Lemma main_report_ids_distinct_witness :
  NoDup (map database_id (databases report_example)) /\
  (forall e, In e (databases report_example) ->
             database_id e <> [] /\ forallb digit (database_id e) = true).
Proof.
  apply (main_report_ids_distinct
           (fun _ => []) responses_example report_example).
  vm_compute. reflexivity.
Defined.
